(** * Configuration of the crawler: settings resolution and the global accessor

    A shallow embedding of [src/crawlee/configuration.py].

    The class [Configuration] is a declarative table of settings handed to
    the settings library: every field has a name, a list of aliases, an
    annotation and a default.  The embedding keeps that table as data and
    gives the library's resolution algorithm as functions over it:

    - the environment source picks, per field, the first of the field's
      names that the environment defines: the aliases in their declared
      order, then the field's own name ([populate_by_name]);
    - keyword arguments are laid over the entries found in the environment;
    - model validation looks every field up under the same names, validates
      the raw text against the annotation, stops at the first validator
      that raises an exception of its own, collects the errors of all
      fields otherwise and rejects unused keys.

    The second part is the class method [get_global_configuration], over a
    state that holds the environment and the slot of the service container.

    Raw input is text, as it is in the environment.  A text is kept as the
    bytes of its UTF-8 encoding, so that an ASCII text is the string of its
    characters; [str.upper] maps code points, as the language does. *)

From Stdlib Require Import ZArith Ascii.
From stdpp Require Import base option list strings gmap fin_maps.

Local Open Scope Z_scope.

(** ** Text helpers *)

Module Text.

Definition is_lower (c : ascii) : bool :=
  let n := N_of_ascii c in ((97 <=? n) && (n <=? 122))%N.

Definition is_upper (c : ascii) : bool :=
  let n := N_of_ascii c in ((65 <=? n) && (n <=? 90))%N.

Definition upper_ascii (c : ascii) : ascii :=
  if is_lower c then ascii_of_N (N_of_ascii c - 32) else c.

Definition lower_ascii (c : ascii) : ascii :=
  if is_upper c then ascii_of_N (N_of_ascii c + 32) else c.

Fixpoint map_string (f : ascii → ascii) (s : string) : string :=
  match s with
  | EmptyString => EmptyString
  | String c s' => String (f c) (map_string f s')
  end.

(** The text with its ASCII letters in lower case, all else unchanged:
    the form under which texts are compared without regard to the case of
    ASCII letters. *)
Definition lower : string → string := map_string lower_ascii.

Fixpoint chars (s : string) : list ascii :=
  match s with
  | EmptyString => []
  | String c s' => c :: chars s'
  end.

(** The bytes below 128 are the ASCII characters. *)
Definition ascii_char (c : ascii) : bool := (N_of_ascii c <? 0x80)%N.

Fixpoint is_ascii (s : string) : bool :=
  match s with
  | EmptyString => true
  | String c s' => ascii_char c && is_ascii s'
  end.

(** *** Code points

    The code points of a text, decoded from UTF-8 as the language decodes
    the environment: shortest forms only, no surrogates, nothing above
    U+10FFFF; a byte that starts no well-formed sequence is kept as the
    lone surrogate U+DC00 + byte. *)

Definition continuation (b : N) : bool := ((0x80 <=? b) && (b <=? 0xBF))%N.

Definition two_bytes (b0 b1 : N) : bool :=
  ((0xC2 <=? b0) && (b0 <=? 0xDF))%N && continuation b1.

Definition three_bytes (b0 b1 b2 : N) : bool :=
  ((0xE0 <=? b0) && (b0 <=? 0xEF))%N
  && continuation b1 && continuation b2
  && negb ((b0 =? 0xE0) && (b1 <? 0xA0))%N
  && negb ((b0 =? 0xED) && (0x9F <? b1))%N.

Definition four_bytes (b0 b1 b2 b3 : N) : bool :=
  ((0xF0 <=? b0) && (b0 <=? 0xF4))%N
  && continuation b1 && continuation b2 && continuation b3
  && negb ((b0 =? 0xF0) && (b1 <? 0x90))%N
  && negb ((b0 =? 0xF4) && (0x8F <? b1))%N.

Definition escaped (b : N) : N := (0xDC00 + b)%N.

Fixpoint code_points (s : string) : list N :=
  match s with
  | EmptyString => []
  | String c0 s1 =>
      let b0 := N_of_ascii c0 in
      if (b0 <? 0x80)%N then b0 :: code_points s1 else
      match s1 with
      | EmptyString => [escaped b0]
      | String c1 s2 =>
          let b1 := N_of_ascii c1 in
          if two_bytes b0 b1
          then ((b0 - 0xC0) * 0x40 + (b1 - 0x80))%N :: code_points s2 else
          match s2 with
          | EmptyString => escaped b0 :: code_points s1
          | String c2 s3 =>
              let b2 := N_of_ascii c2 in
              if three_bytes b0 b1 b2
              then ((b0 - 0xE0) * 0x1000 + (b1 - 0x80) * 0x40 + (b2 - 0x80))%N
                     :: code_points s3 else
              match s3 with
              | EmptyString => escaped b0 :: code_points s1
              | String c3 s4 =>
                  let b3 := N_of_ascii c3 in
                  if four_bytes b0 b1 b2 b3
                  then ((b0 - 0xF0) * 0x40000 + (b1 - 0x80) * 0x1000
                        + (b2 - 0x80) * 0x40 + (b3 - 0x80))%N :: code_points s4
                  else escaped b0 :: code_points s1
              end
          end
      end
  end.

Definition byte (n : N) : string := String (ascii_of_N n) EmptyString.

(** The UTF-8 encoding of one code point; a lone surrogate that stands
    for a byte gives that byte back. *)
Definition utf8 (n : N) : string :=
  (if n <? 0x80 then byte n
   else if n <? 0x800 then byte (0xC0 + n / 0x40) +:+ byte (0x80 + n mod 0x40)
   else if (0xDC80 <=? n) && (n <=? 0xDCFF) then byte (n - 0xDC00)
   else if n <? 0x10000
   then byte (0xE0 + n / 0x1000) +:+ byte (0x80 + n / 0x40 mod 0x40)
        +:+ byte (0x80 + n mod 0x40)
   else byte (0xF0 + n / 0x40000) +:+ byte (0x80 + n / 0x1000 mod 0x40)
        +:+ byte (0x80 + n / 0x40 mod 0x40) +:+ byte (0x80 + n mod 0x40))%N.

Fixpoint encode (points : list N) : string :=
  match points with
  | [] => EmptyString
  | n :: rest => utf8 n +:+ encode rest
  end.

(** A text all of whose bytes decode: it holds no byte kept as a lone
    surrogate. *)
Definition well_formed (s : string) : bool :=
  forallb (λ n, (n <? 0xDC80) || (0xDCFF <? n))%N (code_points s).

(** *** Upper case

    [str.upper] maps every code point to its upper-case form, which for
    some is a sequence of several code points (Unicode 14.0).
    [(lo, hi, step, to)] maps [lo] to [to], [lo + step] to [to + step], and
    so on up to [hi]. *)

Definition upper_ranges : list (N * N * N * N) :=
  ([(0x61, 0x7A, 1, 0x41); (0xB5, 0xB5, 1, 0x39C); (0xE0, 0xF6, 1, 0xC0);
   (0xF8, 0xFE, 1, 0xD8); (0xFF, 0xFF, 1, 0x178); (0x101, 0x12F, 2, 0x100);
   (0x131, 0x131, 1, 0x49); (0x133, 0x137, 2, 0x132);
   (0x13A, 0x148, 2, 0x139); (0x14B, 0x177, 2, 0x14A);
   (0x17A, 0x17E, 2, 0x179); (0x17F, 0x17F, 1, 0x53);
   (0x180, 0x180, 1, 0x243); (0x183, 0x185, 2, 0x182);
   (0x188, 0x188, 1, 0x187); (0x18C, 0x18C, 1, 0x18B);
   (0x192, 0x192, 1, 0x191); (0x195, 0x195, 1, 0x1F6);
   (0x199, 0x199, 1, 0x198); (0x19A, 0x19A, 1, 0x23D);
   (0x19E, 0x19E, 1, 0x220); (0x1A1, 0x1A5, 2, 0x1A0);
   (0x1A8, 0x1A8, 1, 0x1A7); (0x1AD, 0x1AD, 1, 0x1AC);
   (0x1B0, 0x1B0, 1, 0x1AF); (0x1B4, 0x1B6, 2, 0x1B3);
   (0x1B9, 0x1B9, 1, 0x1B8); (0x1BD, 0x1BD, 1, 0x1BC);
   (0x1BF, 0x1BF, 1, 0x1F7); (0x1C5, 0x1C5, 1, 0x1C4);
   (0x1C6, 0x1C6, 1, 0x1C4); (0x1C8, 0x1C8, 1, 0x1C7);
   (0x1C9, 0x1C9, 1, 0x1C7); (0x1CB, 0x1CB, 1, 0x1CA);
   (0x1CC, 0x1CC, 1, 0x1CA); (0x1CE, 0x1DC, 2, 0x1CD);
   (0x1DD, 0x1DD, 1, 0x18E); (0x1DF, 0x1EF, 2, 0x1DE);
   (0x1F2, 0x1F2, 1, 0x1F1); (0x1F3, 0x1F3, 1, 0x1F1);
   (0x1F5, 0x1F5, 1, 0x1F4); (0x1F9, 0x21F, 2, 0x1F8);
   (0x223, 0x233, 2, 0x222); (0x23C, 0x23C, 1, 0x23B);
   (0x23F, 0x240, 1, 0x2C7E); (0x242, 0x242, 1, 0x241);
   (0x247, 0x24F, 2, 0x246); (0x250, 0x250, 1, 0x2C6F);
   (0x251, 0x251, 1, 0x2C6D); (0x252, 0x252, 1, 0x2C70);
   (0x253, 0x253, 1, 0x181); (0x254, 0x254, 1, 0x186);
   (0x256, 0x257, 1, 0x189); (0x259, 0x259, 1, 0x18F);
   (0x25B, 0x25B, 1, 0x190); (0x25C, 0x25C, 1, 0xA7AB);
   (0x260, 0x260, 1, 0x193); (0x261, 0x261, 1, 0xA7AC);
   (0x263, 0x263, 1, 0x194); (0x265, 0x265, 1, 0xA78D);
   (0x266, 0x266, 1, 0xA7AA); (0x268, 0x268, 1, 0x197);
   (0x269, 0x269, 1, 0x196); (0x26A, 0x26A, 1, 0xA7AE);
   (0x26B, 0x26B, 1, 0x2C62); (0x26C, 0x26C, 1, 0xA7AD);
   (0x26F, 0x26F, 1, 0x19C); (0x271, 0x271, 1, 0x2C6E);
   (0x272, 0x272, 1, 0x19D); (0x275, 0x275, 1, 0x19F);
   (0x27D, 0x27D, 1, 0x2C64); (0x280, 0x280, 1, 0x1A6);
   (0x282, 0x282, 1, 0xA7C5); (0x283, 0x283, 1, 0x1A9);
   (0x287, 0x287, 1, 0xA7B1); (0x288, 0x288, 1, 0x1AE);
   (0x289, 0x289, 1, 0x244); (0x28A, 0x28B, 1, 0x1B1);
   (0x28C, 0x28C, 1, 0x245); (0x292, 0x292, 1, 0x1B7);
   (0x29D, 0x29D, 1, 0xA7B2); (0x29E, 0x29E, 1, 0xA7B0);
   (0x345, 0x345, 1, 0x399); (0x371, 0x373, 2, 0x370);
   (0x377, 0x377, 1, 0x376); (0x37B, 0x37D, 1, 0x3FD);
   (0x3AC, 0x3AC, 1, 0x386); (0x3AD, 0x3AF, 1, 0x388);
   (0x3B1, 0x3C1, 1, 0x391); (0x3C2, 0x3C2, 1, 0x3A3);
   (0x3C3, 0x3CB, 1, 0x3A3); (0x3CC, 0x3CC, 1, 0x38C);
   (0x3CD, 0x3CE, 1, 0x38E); (0x3D0, 0x3D0, 1, 0x392);
   (0x3D1, 0x3D1, 1, 0x398); (0x3D5, 0x3D5, 1, 0x3A6);
   (0x3D6, 0x3D6, 1, 0x3A0); (0x3D7, 0x3D7, 1, 0x3CF);
   (0x3D9, 0x3EF, 2, 0x3D8); (0x3F0, 0x3F0, 1, 0x39A);
   (0x3F1, 0x3F1, 1, 0x3A1); (0x3F2, 0x3F2, 1, 0x3F9);
   (0x3F3, 0x3F3, 1, 0x37F); (0x3F5, 0x3F5, 1, 0x395);
   (0x3F8, 0x3F8, 1, 0x3F7); (0x3FB, 0x3FB, 1, 0x3FA);
   (0x430, 0x44F, 1, 0x410); (0x450, 0x45F, 1, 0x400);
   (0x461, 0x481, 2, 0x460); (0x48B, 0x4BF, 2, 0x48A);
   (0x4C2, 0x4CE, 2, 0x4C1); (0x4CF, 0x4CF, 1, 0x4C0);
   (0x4D1, 0x52F, 2, 0x4D0); (0x561, 0x586, 1, 0x531);
   (0x10D0, 0x10FA, 1, 0x1C90); (0x10FD, 0x10FF, 1, 0x1CBD);
   (0x13F8, 0x13FD, 1, 0x13F0); (0x1C80, 0x1C80, 1, 0x412);
   (0x1C81, 0x1C81, 1, 0x414); (0x1C82, 0x1C82, 1, 0x41E);
   (0x1C83, 0x1C84, 1, 0x421); (0x1C85, 0x1C85, 1, 0x422);
   (0x1C86, 0x1C86, 1, 0x42A); (0x1C87, 0x1C87, 1, 0x462);
   (0x1C88, 0x1C88, 1, 0xA64A); (0x1D79, 0x1D79, 1, 0xA77D);
   (0x1D7D, 0x1D7D, 1, 0x2C63); (0x1D8E, 0x1D8E, 1, 0xA7C6);
   (0x1E01, 0x1E95, 2, 0x1E00); (0x1E9B, 0x1E9B, 1, 0x1E60);
   (0x1EA1, 0x1EFF, 2, 0x1EA0); (0x1F00, 0x1F07, 1, 0x1F08);
   (0x1F10, 0x1F15, 1, 0x1F18); (0x1F20, 0x1F27, 1, 0x1F28);
   (0x1F30, 0x1F37, 1, 0x1F38); (0x1F40, 0x1F45, 1, 0x1F48);
   (0x1F51, 0x1F57, 2, 0x1F59); (0x1F60, 0x1F67, 1, 0x1F68);
   (0x1F70, 0x1F71, 1, 0x1FBA); (0x1F72, 0x1F75, 1, 0x1FC8);
   (0x1F76, 0x1F77, 1, 0x1FDA); (0x1F78, 0x1F79, 1, 0x1FF8);
   (0x1F7A, 0x1F7B, 1, 0x1FEA); (0x1F7C, 0x1F7D, 1, 0x1FFA);
   (0x1FB0, 0x1FB1, 1, 0x1FB8); (0x1FBE, 0x1FBE, 1, 0x399);
   (0x1FD0, 0x1FD1, 1, 0x1FD8); (0x1FE0, 0x1FE1, 1, 0x1FE8);
   (0x1FE5, 0x1FE5, 1, 0x1FEC); (0x214E, 0x214E, 1, 0x2132);
   (0x2170, 0x217F, 1, 0x2160); (0x2184, 0x2184, 1, 0x2183);
   (0x24D0, 0x24E9, 1, 0x24B6); (0x2C30, 0x2C5F, 1, 0x2C00);
   (0x2C61, 0x2C61, 1, 0x2C60); (0x2C65, 0x2C65, 1, 0x23A);
   (0x2C66, 0x2C66, 1, 0x23E); (0x2C68, 0x2C6C, 2, 0x2C67);
   (0x2C73, 0x2C73, 1, 0x2C72); (0x2C76, 0x2C76, 1, 0x2C75);
   (0x2C81, 0x2CE3, 2, 0x2C80); (0x2CEC, 0x2CEE, 2, 0x2CEB);
   (0x2CF3, 0x2CF3, 1, 0x2CF2); (0x2D00, 0x2D25, 1, 0x10A0);
   (0x2D27, 0x2D27, 1, 0x10C7); (0x2D2D, 0x2D2D, 1, 0x10CD);
   (0xA641, 0xA66D, 2, 0xA640); (0xA681, 0xA69B, 2, 0xA680);
   (0xA723, 0xA72F, 2, 0xA722); (0xA733, 0xA76F, 2, 0xA732);
   (0xA77A, 0xA77C, 2, 0xA779); (0xA77F, 0xA787, 2, 0xA77E);
   (0xA78C, 0xA78C, 1, 0xA78B); (0xA791, 0xA793, 2, 0xA790);
   (0xA794, 0xA794, 1, 0xA7C4); (0xA797, 0xA7A9, 2, 0xA796);
   (0xA7B5, 0xA7C3, 2, 0xA7B4); (0xA7C8, 0xA7CA, 2, 0xA7C7);
   (0xA7D1, 0xA7D1, 1, 0xA7D0); (0xA7D7, 0xA7D9, 2, 0xA7D6);
   (0xA7F6, 0xA7F6, 1, 0xA7F5); (0xAB53, 0xAB53, 1, 0xA7B3);
   (0xAB70, 0xABBF, 1, 0x13A0); (0xFF41, 0xFF5A, 1, 0xFF21);
   (0x10428, 0x1044F, 1, 0x10400); (0x104D8, 0x104FB, 1, 0x104B0);
   (0x10597, 0x105BB, 2, 0x10570); (0x10598, 0x105A0, 2, 0x10571);
   (0x105A4, 0x105B0, 2, 0x1057D); (0x105B4, 0x105B8, 2, 0x1058D);
   (0x105BC, 0x105BC, 1, 0x10595); (0x10CC0, 0x10CF2, 1, 0x10C80);
   (0x118C0, 0x118DF, 1, 0x118A0); (0x16E60, 0x16E7F, 1, 0x16E40);
   (0x1E922, 0x1E943, 1, 0x1E900) ])%N.

Definition upper_special : list (N * list N) :=
  ([(0xDF, [0x53; 0x53]); (0x149, [0x2BC; 0x4E]); (0x1F0, [0x4A; 0x30C]);
   (0x390, [0x399; 0x308; 0x301]); (0x3B0, [0x3A5; 0x308; 0x301]);
   (0x587, [0x535; 0x552]); (0x1E96, [0x48; 0x331]); (0x1E97, [0x54; 0x308]);
   (0x1E98, [0x57; 0x30A]); (0x1E99, [0x59; 0x30A]); (0x1E9A, [0x41; 0x2BE]);
   (0x1F50, [0x3A5; 0x313]); (0x1F52, [0x3A5; 0x313; 0x300]);
   (0x1F54, [0x3A5; 0x313; 0x301]); (0x1F56, [0x3A5; 0x313; 0x342]);
   (0x1F80, [0x1F08; 0x399]); (0x1F81, [0x1F09; 0x399]);
   (0x1F82, [0x1F0A; 0x399]); (0x1F83, [0x1F0B; 0x399]);
   (0x1F84, [0x1F0C; 0x399]); (0x1F85, [0x1F0D; 0x399]);
   (0x1F86, [0x1F0E; 0x399]); (0x1F87, [0x1F0F; 0x399]);
   (0x1F88, [0x1F08; 0x399]); (0x1F89, [0x1F09; 0x399]);
   (0x1F8A, [0x1F0A; 0x399]); (0x1F8B, [0x1F0B; 0x399]);
   (0x1F8C, [0x1F0C; 0x399]); (0x1F8D, [0x1F0D; 0x399]);
   (0x1F8E, [0x1F0E; 0x399]); (0x1F8F, [0x1F0F; 0x399]);
   (0x1F90, [0x1F28; 0x399]); (0x1F91, [0x1F29; 0x399]);
   (0x1F92, [0x1F2A; 0x399]); (0x1F93, [0x1F2B; 0x399]);
   (0x1F94, [0x1F2C; 0x399]); (0x1F95, [0x1F2D; 0x399]);
   (0x1F96, [0x1F2E; 0x399]); (0x1F97, [0x1F2F; 0x399]);
   (0x1F98, [0x1F28; 0x399]); (0x1F99, [0x1F29; 0x399]);
   (0x1F9A, [0x1F2A; 0x399]); (0x1F9B, [0x1F2B; 0x399]);
   (0x1F9C, [0x1F2C; 0x399]); (0x1F9D, [0x1F2D; 0x399]);
   (0x1F9E, [0x1F2E; 0x399]); (0x1F9F, [0x1F2F; 0x399]);
   (0x1FA0, [0x1F68; 0x399]); (0x1FA1, [0x1F69; 0x399]);
   (0x1FA2, [0x1F6A; 0x399]); (0x1FA3, [0x1F6B; 0x399]);
   (0x1FA4, [0x1F6C; 0x399]); (0x1FA5, [0x1F6D; 0x399]);
   (0x1FA6, [0x1F6E; 0x399]); (0x1FA7, [0x1F6F; 0x399]);
   (0x1FA8, [0x1F68; 0x399]); (0x1FA9, [0x1F69; 0x399]);
   (0x1FAA, [0x1F6A; 0x399]); (0x1FAB, [0x1F6B; 0x399]);
   (0x1FAC, [0x1F6C; 0x399]); (0x1FAD, [0x1F6D; 0x399]);
   (0x1FAE, [0x1F6E; 0x399]); (0x1FAF, [0x1F6F; 0x399]);
   (0x1FB2, [0x1FBA; 0x399]); (0x1FB3, [0x391; 0x399]);
   (0x1FB4, [0x386; 0x399]); (0x1FB6, [0x391; 0x342]);
   (0x1FB7, [0x391; 0x342; 0x399]); (0x1FBC, [0x391; 0x399]);
   (0x1FC2, [0x1FCA; 0x399]); (0x1FC3, [0x397; 0x399]);
   (0x1FC4, [0x389; 0x399]); (0x1FC6, [0x397; 0x342]);
   (0x1FC7, [0x397; 0x342; 0x399]); (0x1FCC, [0x397; 0x399]);
   (0x1FD2, [0x399; 0x308; 0x300]); (0x1FD3, [0x399; 0x308; 0x301]);
   (0x1FD6, [0x399; 0x342]); (0x1FD7, [0x399; 0x308; 0x342]);
   (0x1FE2, [0x3A5; 0x308; 0x300]); (0x1FE3, [0x3A5; 0x308; 0x301]);
   (0x1FE4, [0x3A1; 0x313]); (0x1FE6, [0x3A5; 0x342]);
   (0x1FE7, [0x3A5; 0x308; 0x342]); (0x1FF2, [0x1FFA; 0x399]);
   (0x1FF3, [0x3A9; 0x399]); (0x1FF4, [0x38F; 0x399]);
   (0x1FF6, [0x3A9; 0x342]); (0x1FF7, [0x3A9; 0x342; 0x399]);
   (0x1FFC, [0x3A9; 0x399]); (0xFB00, [0x46; 0x46]); (0xFB01, [0x46; 0x49]);
   (0xFB02, [0x46; 0x4C]); (0xFB03, [0x46; 0x46; 0x49]);
   (0xFB04, [0x46; 0x46; 0x4C]); (0xFB05, [0x53; 0x54]);
   (0xFB06, [0x53; 0x54]); (0xFB13, [0x544; 0x546]);
   (0xFB14, [0x544; 0x535]); (0xFB15, [0x544; 0x53B]);
   (0xFB16, [0x54E; 0x546]); (0xFB17, [0x544; 0x53D]) ])%N.

Definition upper_code (n : N) : list N :=
  match list_find (λ entry, entry.1 = n) upper_special with
  | Some (_, (_, to)) => to
  | None =>
      match list_find (λ '(lo, hi, step, _),
                         (lo ≤ n)%N ∧ (n ≤ hi)%N ∧ ((n - lo) mod step = 0)%N)
              upper_ranges with
      | Some (_, (lo, _, _, to)) => [(to + (n - lo))%N]
      | None => [n]
      end
  end.

(** [str.upper()]. *)
Definition upper (s : string) : string :=
  encode (code_points s ≫= upper_code).

(** *** White space

    The encodings of the characters with the property White_Space, which
    the library trims off both ends of a number: the ASCII blanks, U+0085,
    U+00A0, U+1680, U+2000 to U+200A, U+2028, U+2029, U+202F, U+205F and
    U+3000. *)

Definition space2 (b0 b1 : N) : bool :=
  ((b0 =? 0xC2) && ((b1 =? 0x85) || (b1 =? 0xA0)))%N.

Definition space3 (b0 b1 b2 : N) : bool :=
  (((b0 =? 0xE1) && (b1 =? 0x9A) && (b2 =? 0x80))
   || ((b0 =? 0xE2) && (b1 =? 0x80)
       && (((0x80 <=? b2) && (b2 <=? 0x8A)) || (b2 =? 0xA8) || (b2 =? 0xA9)
           || (b2 =? 0xAF)))
   || ((b0 =? 0xE2) && (b1 =? 0x81) && (b2 =? 0x9F))
   || ((b0 =? 0xE3) && (b1 =? 0x80) && (b2 =? 0x80)))%N.

Fixpoint lstrip (s : string) : string :=
  match s with
  | EmptyString => EmptyString
  | String c0 s1 =>
      if Ascii.is_space c0 then lstrip s1 else
      match s1 with
      | EmptyString => s
      | String c1 s2 =>
          if space2 (N_of_ascii c0) (N_of_ascii c1) then lstrip s2 else
          match s2 with
          | EmptyString => s
          | String c2 s3 =>
              if space3 (N_of_ascii c0) (N_of_ascii c1) (N_of_ascii c2)
              then lstrip s3 else s
          end
      end
  end.

(** The text is white space from one end to the other. *)
Definition blank (s : string) : bool :=
  bool_decide (lstrip s = EmptyString).

Fixpoint rstrip (s : string) : string :=
  match s with
  | EmptyString => EmptyString
  | String c s' => if blank s then EmptyString else String c (rstrip s')
  end.

(** The text without the white space at its ends. *)
Definition strip (s : string) : string := rstrip (lstrip s).

(** *** Numerals *)

Definition digit_value (c : ascii) : option N :=
  let n := N_of_ascii c in
  if ((48 <=? n) && (n <=? 57))%N then Some (n - 48)%N else None.

Fixpoint digits_from (acc : N) (s : string) : option N :=
  match s with
  | EmptyString => Some acc
  | String c s' =>
      match digit_value c with
      | Some d => digits_from (10 * acc + d)%N s'
      | None => None
      end
  end.

(** A non-empty run of decimal digits, read as a natural number. *)
Definition digits (s : string) : option N :=
  match s with
  | EmptyString => None
  | _ => digits_from 0%N s
  end.

(** An optional sign, split off the rest of the text. *)
Definition split_sign (s : string) : bool * string :=
  match s with
  | String "-"%char r => (true, r)
  | String "+"%char r => (false, r)
  | _ => (false, s)
  end.

Definition apply_sign (neg : bool) (n : Z) : Z := if neg then - n else n.

(** The text before the first occurrence of [sep], and the text after it
    when there is one. *)
Fixpoint split_at (sep : ascii) (s : string) : string * option string :=
  match s with
  | EmptyString => (EmptyString, None)
  | String c s' =>
      if Ascii.eqb c sep then (EmptyString, Some s')
      else let '(l, r) := split_at sep s' in (String c l, r)
  end.

(** The text before the first character that satisfies [p], and the text
    from that character on. *)
Fixpoint break (p : ascii → bool) (s : string) : string * string :=
  match s with
  | EmptyString => (EmptyString, EmptyString)
  | String c s' =>
      if p c then (EmptyString, s)
      else let '(l, r) := break p s' in (String c l, r)
  end.

Fixpoint filter (p : ascii → bool) (s : string) : string :=
  match s with
  | EmptyString => EmptyString
  | String c s' => if p c then String c (filter p s') else filter p s'
  end.

Fixpoint last (s : string) : option ascii :=
  match s with
  | EmptyString => None
  | String c EmptyString => Some c
  | String _ s' => last s'
  end.

Fixpoint doubled (c : ascii) (s : string) : bool :=
  match s with
  | String c0 ((String c1 _) as s') =>
      (Ascii.eqb c0 c && Ascii.eqb c1 c) || doubled c s'
  | _ => false
  end.

End Text.

(** ** Typed values *)

(** A [float] is a binary64 number.  A finite one is
    [mantissa × 2 ^ exponent] with its sign; the mantissa of a normal
    number has 53 bits, a subnormal one has the least exponent, zero has
    mantissa and exponent 0. *)
Inductive float :=
  | Finite (negative : bool) (mantissa : N) (exponent : Z)
  | Infinity (negative : bool)
  | NaN.

Module binary64.

(** [num / den / 2 ^ e], as a fraction. *)
Definition scaled (num den : N) (e : Z) : N * N :=
  if 0 <=? e then (num, den * 2 ^ Z.to_N e)%N
  else ((num * 2 ^ Z.to_N (- e))%N, den).

(** The integer nearest to [p / q]; of two that are equally near, the
    even one. *)
Definition round_half_even (p q : N) : N :=
  let quotient := (p / q)%N in
  let remainder := (p mod q)%N in
  if ((q <? 2 * remainder) || ((q =? 2 * remainder) && N.odd quotient))%N
  then (quotient + 1)%N else quotient.

(** The float nearest to [num / den], for [den] other than 0. *)
Definition nearest (negative : bool) (num den : N) : float :=
  if (num =? 0)%N then Finite negative 0 0 else
  let k0 := Z.of_N (N.log2 num) - Z.of_N (N.log2 den) in
  let '(p0, q0) := scaled num den k0 in
  let k := if (p0 <? q0)%N then k0 - 1 else k0 in
  let e := Z.max (k - 52) (-1074) in
  let '(p, q) := scaled num den e in
  let m := round_half_even p q in
  if (m =? 0)%N then Finite negative 0 0
  else if (m =? 2 ^ 53)%N
  then (if 971 <? e + 1 then Infinity negative
        else Finite negative (2 ^ 52) (e + 1))
  else if 971 <? e then Infinity negative
  else Finite negative m e.

(** The float nearest to [m × 10 ^ e], where [m] was written with
    [width] digits.  Beyond 10 ^ 310 every float is infinite, and below
    10 ^ -330 every float is zero. *)
Definition of_decimal (negative : bool) (m : N) (width : nat) (e : Z) : float :=
  if (m =? 0)%N then Finite negative 0 0
  else if 310 <? e then Infinity negative
  else if e + Z.of_nat width <? -330 then Finite negative 0 0
  else if 0 <=? e then nearest negative (m * 10 ^ Z.to_N e) 1
  else nearest negative m (10 ^ Z.to_N (- e)).

End binary64.

(** A [datetime.timedelta] is determined by its length in microseconds,
    which lies between those of [timedelta_min] and [timedelta_max] below:
    the constructor [timedelta_new] raises for a length outside, and the
    readers of text and the defaults give lengths inside. *)
Record timedelta := Timedelta { microseconds : Z }.

Definition timedelta_of_milliseconds (n : Z) : timedelta := Timedelta (n * 1000).
Definition timedelta_of_seconds (n : Z) : timedelta := Timedelta (n * 1000000).
Definition timedelta_of_minutes (n : Z) : timedelta := timedelta_of_seconds (n * 60).

(** [timedelta.min] and [timedelta.max]: a [timedelta] holds at most
    999999999 days, either way. *)
Definition timedelta_min : timedelta := Timedelta (-999999999 * 86400000000).
Definition timedelta_max : timedelta := Timedelta (1000000000 * 86400000000 - 1).

Definition timedelta_fits (t : timedelta) : bool :=
  (microseconds timedelta_min <=? microseconds t)
  && (microseconds t <=? microseconds timedelta_max).

Inductive value :=
  | VNone
  | VBool (b : bool)
  | VInt (n : Z)
  | VFloat (x : float)
  | VStr (s : string)
  | VTimedelta (t : timedelta).

Global Instance float_eq_dec : EqDecision float.
Proof. solve_decision. Defined.
Global Instance timedelta_eq_dec : EqDecision timedelta.
Proof. solve_decision. Defined.
Global Instance value_eq_dec : EqDecision value.
Proof. solve_decision. Defined.

(** ** Errors *)

Record line_error := LineError {
  err_loc : string;      (* the key under which the input was found *)
  err_type : string;
  err_input : string
}.

(** The exceptions that reach the caller: the validation library's error
    with its lines, the [TypeError] of the accessor with its message, and
    the [OverflowError] of a [timedelta] out of range (its message is not
    kept). *)
Inductive exception :=
  | ValidationError (title : string) (errors : list line_error)
  | TypeError (message : string)
  | OverflowError.

(** The name of the class of a raised exception. *)
Definition exception_class (e : exception) : string :=
  match e with
  | ValidationError _ _ => "ValidationError"
  | TypeError _ => "TypeError"
  | OverflowError => "OverflowError"
  end.

(** [timedelta(milliseconds=n)]. *)
Definition timedelta_new (milliseconds : Z) : exception + timedelta :=
  if timedelta_fits (timedelta_of_milliseconds milliseconds)
  then inr (timedelta_of_milliseconds milliseconds)
  else inl OverflowError.

(** ** The validation library's readers of text

    Each reader returns [None] where the library reports a parsing error.
    Booleans are read by the library's token table; integers and floats
    by the number readers of the library's implementation language, after
    the library's own trimming and cleaning; time deltas in clock form,
    [HH:MM], [HH:MM:SS] or [HH:MM:SS.ffffff].  The library reads time
    deltas in two further forms, a count of days before the clock and ISO
    8601 durations, which are refused here; no statement below depends on
    how a time delta is spelled. *)

Module pydantic_core.

Definition false_tokens : list string := ["0"; "off"; "f"; "false"; "n"; "no"].
Definition true_tokens : list string := ["1"; "on"; "t"; "true"; "y"; "yes"].

Definition str_as_bool (s : string) : option bool :=
  let t := Text.lower s in
  if bool_decide (t ∈ false_tokens) then Some false
  else if bool_decide (t ∈ true_tokens) then Some true
  else None.

Definition is_underscore (c : ascii) : bool := Ascii.eqb c "_".

(** The text without its digit separators; there is none when no
    separator occurs, or one occurs at an end or next to another. *)
Definition strip_underscores (s : string) : option string :=
  if String.prefix "_" s
     || bool_decide (Text.last s = Some "_"%char)
     || bool_decide (Text.filter is_underscore s = EmptyString)
     || Text.doubled "_" s
  then None
  else Some (Text.filter (λ c, negb (is_underscore c)) s).

(** An optional sign and a run of digits. *)
Definition parse_int (s : string) : option Z :=
  let '(neg, body) := Text.split_sign s in
  n ← Text.digits body; Some (Text.apply_sign neg (Z.of_N n)).

Definition nonzero_digit (c : ascii) : bool :=
  let n := N_of_ascii c in ((49 <=? n) && (n <=? 57))%N.

(** Past the zeros and separators in front of a number: the text from the
    first other digit on, or from the character before the point. *)
Fixpoint skip_zeros (previous : ascii) (s : string) : option string :=
  match s with
  | EmptyString => Some (String previous EmptyString)
  | String c s' =>
      if Ascii.eqb c "0" || is_underscore c then skip_zeros c s'
      else if nonzero_digit c then Some s
      else if Ascii.eqb c "." then Some (String previous s)
      else None
  end.

Definition strip_leading_zeros (s : string) : option string :=
  match s with
  | EmptyString => None
  | String c s' =>
      if Ascii.eqb c "0" then skip_zeros c s'
      else if nonzero_digit c || Ascii.eqb c "-" then Some s
      else None
  end.

Fixpoint all_zeros (s : string) : bool :=
  match s with
  | EmptyString => true
  | String c s' => Ascii.eqb c "0" && all_zeros s'
  end.

(** Without a decimal part that is zero. *)
Definition strip_decimal_zeros (s : string) : string :=
  match Text.split_at "." s with
  | (whole, Some decimals) => if all_zeros decimals then whole else s
  | (_, None) => s
  end.

Definition clean_int_str (s : string) : option string :=
  s1 ← strip_leading_zeros s;
  let s2 := strip_decimal_zeros s1 in
  match strip_underscores s2 with
  | Some stripped => Some stripped
  | None => if bool_decide (String.length s = String.length s2) then None else Some s2
  end.

(** The text without the white space at its ends, read as it stands, or
    else cleaned and read: [" 42 "], ["+7"], ["007"], ["1_000"] and ["1.0"]
    are integers, ["1.5"], ["1e3"] and the empty text are not. *)
Definition str_as_int (s : string) : option Z :=
  let t := Text.strip s in
  match parse_int t with
  | Some n => Some n
  | None => cleaned ← clean_int_str t; parse_int cleaned
  end.

Definition is_exponent_mark (c : ascii) : bool := Ascii.eqb c "e" || Ascii.eqb c "E".

(** A sign, then [inf], [infinity] or [nan] in any case, or a numeral:
    digits with an optional point among them and an optional exponent. *)
Definition parse_float (s : string) : option float :=
  let '(neg, body) := Text.split_sign s in
  let word := Text.lower body in
  if bool_decide (word ∈ ["inf"; "infinity"]) then Some (Infinity neg)
  else if bool_decide (word = "nan") then Some NaN
  else
    let '(numeral, exponent) := Text.break is_exponent_mark body in
    e ← match exponent with
        | EmptyString => Some 0
        | String _ power =>
            let '(eneg, epower) := Text.split_sign power in
            n ← Text.digits epower; Some (Text.apply_sign eneg (Z.of_N n))
        end;
    let '(whole, point) := Text.split_at "." numeral in
    let decimals := default EmptyString point in
    m ← Text.digits (whole +:+ decimals);
    Some (binary64.of_decimal neg m (String.length (whole +:+ decimals))
            (e - Z.of_nat (String.length decimals))).

(** The text without the white space at its ends, or else the text
    without its digit separators. *)
Definition str_as_float (s : string) : option float :=
  match parse_float (Text.strip s) with
  | Some x => Some x
  | None => stripped ← strip_underscores s; parse_float stripped
  end.

(** Two digits, and the text after them. *)
Definition two_digits (s : string) : option (N * string) :=
  match s with
  | String a (String b rest) =>
      x ← Text.digit_value a; y ← Text.digit_value b; Some ((10 * x + y)%N, rest)
  | _ => None
  end.

Fixpoint take_digits (n : nat) (s : string) : string :=
  match n, s with
  | S n', String c s' => String c (take_digits n' s')
  | S n', EmptyString => String "0" (take_digits n' EmptyString)
  | O, _ => EmptyString
  end.

(** The decimals of a second, in microseconds: the digits past the sixth
    are dropped. *)
Definition second_fraction (s : string) : option N :=
  _ ← Text.digits s; Text.digits (take_digits 6 s).

Definition clock (neg : bool) (h m s us : N) : option timedelta :=
  if ((h <? 24) && (m <? 60) && (s <? 60))%N
  then Some (Timedelta (Text.apply_sign neg
                          (Z.of_N (((h * 60 + m) * 60 + s) * 1000000 + us))))
  else None.

(** Hours below 24, minutes and seconds below 60, each in two digits. *)
Definition str_as_timedelta (s : string) : option timedelta :=
  let '(neg, body) := Text.split_sign s in
  '(h, after_hours) ← two_digits body;
  match after_hours with
  | String ":" rest =>
      '(m, after_minutes) ← two_digits rest;
      match after_minutes with
      | EmptyString => clock neg h m 0 0
      | String ":" rest' =>
          '(sec, after_seconds) ← two_digits rest';
          match after_seconds with
          | EmptyString => clock neg h m sec 0
          | String "." decimals => us ← second_fraction decimals; clock neg h m sec us
          | _ => None
          end
      | _ => None
      end
  | _ => None
  end.

End pydantic_core.

(** ** Field declarations *)

Inductive annotation :=
  | t_bool
  | t_int
  | t_float
  | t_str
  | t_timedelta
  | t_optional (t : annotation)               (* [t | None] *)
  | t_literal (choices : list string)          (* [Literal[...]] *)
  | t_timedelta_ms.                            (* [crawlee._utils.models.timedelta_ms] *)

(** One annotated class attribute.  [fld_aliases] holds the single [alias]
    or the [AliasChoices] of [validation_alias], in the declared order;
    [fld_before] is the [BeforeValidator], when the field has one. *)
Record field := Field {
  fld_name : string;
  fld_annotation : annotation;
  fld_aliases : list string;
  fld_before : option (string → string);
  fld_default : value
}.

Definition AliasChoices (choices : list string) : list string := choices.

Definition log_levels : list string :=
  ["DEBUG"; "INFO"; "WARNING"; "ERROR"; "CRITICAL"].

Definition internal_timeout : field :=
  Field "internal_timeout" (t_optional t_timedelta)
    ["crawlee_internal_timeout"] None VNone.

Definition verbose_log : field :=
  Field "verbose_log" t_bool ["crawlee_verbose_log"] None (VBool false).

Definition default_browser_path : field :=
  Field "default_browser_path" (t_optional t_str)
    (AliasChoices ["apify_default_browser_path"; "crawlee_default_browser_path"])
    None VNone.

Definition disable_browser_sandbox : field :=
  Field "disable_browser_sandbox" t_bool
    (AliasChoices ["apify_disable_browser_sandbox"; "crawlee_disable_browser_sandbox"])
    None (VBool false).

(** The validator put before the literal is [lambda value: str(value).upper()];
    on text [str] changes nothing. *)
Definition log_level : field :=
  Field "log_level" (t_literal log_levels)
    (AliasChoices ["apify_log_level"; "crawlee_log_level"])
    (Some (λ value, Text.upper value)) (VStr "INFO").

Definition default_dataset_id : field :=
  Field "default_dataset_id" t_str
    (AliasChoices ["actor_default_dataset_id"; "apify_default_dataset_id";
                   "crawlee_default_dataset_id"])
    None (VStr "default").

Definition default_key_value_store_id : field :=
  Field "default_key_value_store_id" t_str
    (AliasChoices ["actor_default_key_value_store_id";
                   "apify_default_key_value_store_id";
                   "crawlee_default_key_value_store_id"])
    None (VStr "default").

Definition default_request_queue_id : field :=
  Field "default_request_queue_id" t_str
    (AliasChoices ["actor_default_request_queue_id";
                   "apify_default_request_queue_id";
                   "crawlee_default_request_queue_id"])
    None (VStr "default").

Definition purge_on_start : field :=
  Field "purge_on_start" t_bool
    (AliasChoices ["apify_purge_on_start"; "crawlee_purge_on_start"])
    None (VBool true).

Definition write_metadata : field :=
  Field "write_metadata" t_bool ["crawlee_write_metadata"] None (VBool true).

Definition persist_storage : field :=
  Field "persist_storage" t_bool
    (AliasChoices ["apify_persist_storage"; "crawlee_persist_storage"])
    None (VBool true).

Definition persist_state_interval : field :=
  Field "persist_state_interval" t_timedelta_ms
    (AliasChoices ["apify_persist_state_interval_millis";
                   "crawlee_persist_state_interval_millis"])
    None (VTimedelta (timedelta_of_minutes 1)).

Definition system_info_interval : field :=
  Field "system_info_interval" t_timedelta_ms
    (AliasChoices ["apify_system_info_interval_millis";
                   "crawlee_system_info_interval_millis"])
    None (VTimedelta (timedelta_of_seconds 1)).

Definition max_used_cpu_ratio : field :=
  Field "max_used_cpu_ratio" t_float
    (AliasChoices ["apify_max_used_cpu_ratio"; "crawlee_max_used_cpu_ratio"])
    None (VFloat (binary64.of_decimal false 95 2 (-2))).

Definition memory_mbytes : field :=
  Field "memory_mbytes" (t_optional t_int)
    (AliasChoices ["actor_memory_mbytes"; "apify_memory_mbytes";
                   "crawlee_memory_mbytes"])
    None VNone.

Definition available_memory_ratio : field :=
  Field "available_memory_ratio" t_float
    (AliasChoices ["apify_available_memory_ratio"; "crawlee_available_memory_ratio"])
    None (VFloat (binary64.of_decimal false 25 2 (-2))).

Definition storage_dir : field :=
  Field "storage_dir" t_str
    (AliasChoices ["apify_local_storage_dir"; "crawlee_storage_dir"])
    None (VStr "./storage").

Definition chrome_executable_path : field :=
  Field "chrome_executable_path" (t_optional t_str)
    (AliasChoices ["apify_chrome_executable_path"; "crawlee_chrome_executable_path"])
    None VNone.

Definition headless : field :=
  Field "headless" t_bool
    (AliasChoices ["apify_headless"; "crawlee_headless"])
    None (VBool true).

Definition xvfb : field :=
  Field "xvfb" t_bool
    (AliasChoices ["apify_xvfb"; "crawlee_xvfb"])
    None (VBool false).

(** The attributes of [Configuration], in the order of the class body. *)
Definition Configuration_fields : list field :=
  [ internal_timeout; verbose_log; default_browser_path;
    disable_browser_sandbox; log_level; default_dataset_id;
    default_key_value_store_id; default_request_queue_id; purge_on_start;
    write_metadata; persist_storage; persist_state_interval;
    system_info_interval; max_used_cpu_ratio; memory_mbytes;
    available_memory_ratio; storage_dir; chrome_executable_path; headless;
    xvfb ].


(** ** Validation of one field *)

(** What a validator does with a raw text: it returns a value, fails with
    an error of some type, which the library reports as one line of its
    [ValidationError], or raises an exception of its own, which the library
    lets through. *)
Inductive validation :=
  | Returns (v : value)
  | Fails (ty : string)
  | Raises (e : exception).

(** Modelled from the spec: [timedelta_ms] is imported from
    [crawlee._utils.models], which is not among the sources.  "A
    duration-typed field's raw input is always interpreted as an integer count
    of milliseconds and converted to a duration value"; it is "parsed as
    integer, converted to a duration value of that many milliseconds".  The
    conversion is [timedelta(milliseconds=n)], which raises for a count out
    of the range of a [timedelta]. *)
Definition timedelta_from_ms (raw : string) : validation :=
  match pydantic_core.str_as_int raw with
  | Some n =>
      match timedelta_new n with
      | inr t => Returns (VTimedelta t)
      | inl e => Raises e
      end
  | None => Fails "int_parsing"
  end.

(** The outcome of a reader: a value, or the type of the error. *)
Definition or_error {A} (err : string) (f : A → value) (r : option A) : validation :=
  match r with
  | Some a => Returns (f a)
  | None => Fails err
  end.

Fixpoint validate_annotation (t : annotation) (raw : string) : validation :=
  match t with
  | t_bool => or_error "bool_parsing" VBool (pydantic_core.str_as_bool raw)
  | t_int => or_error "int_parsing" VInt (pydantic_core.str_as_int raw)
  | t_float => or_error "float_parsing" VFloat (pydantic_core.str_as_float raw)
  | t_str => Returns (VStr raw)
  | t_timedelta =>
      or_error "time_delta_parsing" VTimedelta (pydantic_core.str_as_timedelta raw)
  | t_optional t' => validate_annotation t' raw
  | t_literal choices =>
      if bool_decide (raw ∈ choices) then Returns (VStr raw) else Fails "literal_error"
  | t_timedelta_ms => timedelta_from_ms raw
  end.

(** The text the annotation's validator sees: the raw text, passed through
    the [BeforeValidator] when there is one. *)
Definition before (f : field) (raw : string) : string :=
  match fld_before f with
  | Some g => g raw
  | None => raw
  end.

Definition validate_field (f : field) (raw : string) : validation :=
  validate_annotation (fld_annotation f) (before f raw).

(** ** Classes and the settings sources *)

(** A settings class: its qualified name, the qualified names of its proper
    ancestors, [model_config] and [model_fields]. *)
Record pyclass := PyClass {
  cls_module : string;
  cls_name : string;
  cls_bases : list string;
  populate_by_name : bool;
  model_fields : list field
}.

Definition qualified_name (c : pyclass) : string :=
  cls_module c +:+ "." +:+ cls_name c.

Definition BaseSettings_mro : list string :=
  ["pydantic_settings.main.BaseSettings"; "pydantic.main.BaseModel";
   "builtins.object"].

(** [class Configuration(BaseSettings)] with
    [model_config = SettingsConfigDict(populate_by_name=True)]. *)
Definition Configuration : pyclass :=
  PyClass "crawlee.configuration" "Configuration" BaseSettings_mro true
    Configuration_fields.

(** The first of [keys] that [m] defines, with its value. *)
Fixpoint first_present (keys : list string) (m : gmap string string)
    : option (string * string) :=
  match keys with
  | [] => None
  | k :: ks =>
      match m !! k with
      | Some v => Some (k, v)
      | None => first_present ks m
      end
  end.

(** The names under which the environment source looks a field up, in
    the order in which it tries them: the aliases, then the field's own
    name when the field has no alias or the class populates by name.
    (The environment's variable names are taken in lower case, as the
    source compares them.) *)
Definition env_names (cls : pyclass) (f : field) : list string :=
  if bool_decide (fld_aliases f = []) || populate_by_name cls
  then fld_aliases f ++ [fld_name f]
  else fld_aliases f.

Definition get_field_value (cls : pyclass) (f : field)
    (env_vars : gmap string string) : option (string * string) :=
  first_present (env_names cls f) env_vars.

(** The environment source: for every field the first of its names that
    the environment defines, entered under that name. *)
Definition EnvSettingsSource (cls : pyclass) (env_vars : gmap string string)
    : gmap string string :=
  foldl (λ data f,
           match get_field_value cls f env_vars with
           | Some (field_key, field_value) => <[field_key := field_value]> data
           | None => data
           end) ∅ (model_fields cls).

(** Keyword arguments take priority over the environment. *)
Definition settings_build_values (cls : pyclass)
    (init_kwargs env_vars : gmap string string) : gmap string string :=
  init_kwargs ∪ EnvSettingsSource cls env_vars.

(** The keys under which validation looks a field up: the aliases in their
    order, then the field's name when the class populates by name. *)
Definition lookup_keys (cls : pyclass) (f : field) : list string :=
  match fld_aliases f with
  | [] => [fld_name f]
  | aliases => if populate_by_name cls then aliases ++ [fld_name f] else aliases
  end.

Inductive outcome :=
  | Valid (key : option string) (v : value)
  | Invalid (key : string) (e : line_error)
  | Raising (e : exception).

(** The raw text [raw] found under the key [k], validated for [f]. *)
Definition validate_entry (f : field) (k raw : string) : outcome :=
  match validate_field f raw with
  | Returns v => Valid (Some k) v
  | Fails ty => Invalid k (LineError k ty (before f raw))
  | Raises e => Raising e
  end.

(** One field of the model: the first lookup key present supplies the raw
    text; without one the field takes its default (the defaults declared
    here are values of the fields' types and pass validation unchanged). *)
Definition validate_model_field (cls : pyclass) (f : field)
    (data : gmap string string) : outcome :=
  match first_present (lookup_keys cls f) data with
  | Some (k, raw) => validate_entry f k raw
  | None => Valid None (fld_default f)
  end.

Definition outcome_value (f : field) (o : outcome) : option (string * value) :=
  match o with
  | Valid _ v => Some (fld_name f, v)
  | _ => None
  end.

Definition outcome_error (o : outcome) : option line_error :=
  match o with
  | Invalid _ e => Some e
  | _ => None
  end.

Definition outcome_key (o : outcome) : option string :=
  match o with
  | Valid k _ => k
  | Invalid k _ => Some k
  | Raising _ => None
  end.

Definition outcome_raised (o : outcome) : option exception :=
  match o with
  | Raising e => Some e
  | _ => None
  end.

Definition field_values (cls : pyclass) (data : gmap string string)
    : list (string * value) :=
  omap (λ f, outcome_value f (validate_model_field cls f data)) (model_fields cls).

Definition field_errors (cls : pyclass) (data : gmap string string)
    : list line_error :=
  omap (λ f, outcome_error (validate_model_field cls f data)) (model_fields cls).

Definition used_keys (cls : pyclass) (data : gmap string string) : list string :=
  omap (λ f, outcome_key (validate_model_field cls f data)) (model_fields cls).

(** The exceptions the validators raise, in the order of the fields. *)
Definition field_raised (cls : pyclass) (data : gmap string string)
    : list exception :=
  omap (λ f, outcome_raised (validate_model_field cls f data)) (model_fields cls).

(** [extra='forbid'], the default of settings classes: a key that no field
    used is an error.  (The order of these errors among themselves is that
    of the map's enumeration.) *)
Definition extra_errors (cls : pyclass) (data : gmap string string)
    : list line_error :=
  (λ kv, LineError kv.1 "extra_forbidden" kv.2) <$>
    filter (λ kv, kv.1 ∉ used_keys cls data) (map_to_list data).

(** Validation of the whole model: the fields are validated in their
    order; the first exception a validator raises ends the validation and
    reaches the caller; otherwise all errors are reported together, and an
    instance exists only without errors. *)
Definition model_validate (cls : pyclass) (data : gmap string string)
    : exception + gmap string value :=
  match field_raised cls data with
  | e :: _ => inl e
  | [] =>
      match field_errors cls data ++ extra_errors cls data with
      | [] => inr (list_to_map (field_values cls data))
      | errors => inl (ValidationError (cls_name cls) errors)
      end
  end.

(** The constructor called with the keyword arguments [init_kwargs] under
    the environment [env_vars]: the attributes of the new instance, or the
    error raised.  [init_kwargs] are the keyword arguments that reach the
    model as values; the options of the constructor itself, whose names
    start with an underscore ([_env_prefix], [_env_file] and the like), are
    not among them, and every source other than the keyword arguments and
    the environment is left at its default, which supplies nothing. *)
Definition BaseSettings_init (cls : pyclass)
    (init_kwargs env_vars : gmap string string) : exception + gmap string value :=
  model_validate cls (settings_build_values cls init_kwargs env_vars).

(** Reading an attribute off the result of a construction; there is none
    to read when the construction raised. *)
Definition attribute (r : exception + gmap string value) (name : string)
    : option value :=
  match r with
  | inr attrs => attrs !! name
  | inl _ => None
  end.

(** ** Objects and the process state *)

(** An instance: its identity, its class and its attributes.  Two
    references denote the identical instance when the identities agree. *)
Record object := Object {
  obj_id : nat;
  obj_class : pyclass;
  obj_dict : gmap string value
}.

(** The state of the process: the environment, the number of instances
    constructed so far (the identity of the next one), and the
    configuration slot of the service container. *)
Record state := State {
  environ : gmap string string;
  constructed : nat;
  services_configuration : option object
}.

(** Computations that read and change the state and may raise. *)
Definition M (A : Type) : Type := state → (exception + A) * state.

Definition ret {A} (a : A) : M A := λ st, (inr a, st).
Definition raise {A} (e : exception) : M A := λ st, (inl e, st).
Definition bind {A B} (m : M A) (k : A → M B) : M B :=
  λ st, match m st with
        | (inr a, st') => k a st'
        | (inl e, st') => (inl e, st')
        end.

Declare Scope py_scope.
Delimit Scope py_scope with py.
Notation "'let*' x ':=' m 'in' k" := (bind m (λ x, k))
  (at level 10, x name, m at level 100, k at level 200) : py_scope.
Notation "m ';;;' k" := (bind m (λ _, k))
  (at level 100, k at level 200, right associativity) : py_scope.

(** [issubclass(c, d)]: [d] is [c] or one of its ancestors. *)
Definition issubclass (c d : pyclass) : bool :=
  bool_decide (qualified_name d = qualified_name c)
  || bool_decide (qualified_name d ∈ cls_bases c).

Definition isinstance (o : object) (cls : pyclass) : bool :=
  issubclass (obj_class o) cls.

(** A class formatted in text. *)
Definition class_repr (c : pyclass) : string :=
  "<class '" +:+ qualified_name c +:+ "'>".

(** [cls()]: the settings are read from the environment; a new instance
    gets a fresh identity. *)
Definition new (cls : pyclass) : M object :=
  λ st, match BaseSettings_init cls ∅ (environ st) with
        | inl e => (inl e, st)
        | inr attrs =>
            (inr (Object (constructed st) cls attrs),
             State (environ st) (S (constructed st)) (services_configuration st))
        end.

(** Modelled from the spec: the module [crawlee.service_container] is not
    among the sources.  It is the "global configuration handle", "process-wide
    state holding at most one active Configuration Instance", which is
    "absent at process start" and may be "explicitly set by a caller"; the
    transition from unset to set "occurs on first explicit set or first
    get". *)
Module service_container.

(** Modelled from the spec: the instance in the slot, if there is one. *)
Definition get_configuration_if_set : M (option object) :=
  λ st, (inr (services_configuration st), st).

(** Modelled from the spec: "a separate setter allows a caller to install
    a specific instance as the global instance". *)
Definition set_configuration (configuration : object) : M unit :=
  λ st, (inr tt, State (environ st) (constructed st) (Some configuration)).

(** Modelled from the spec: the instance in the slot; on the "first get"
    of an empty slot a [Configuration] is constructed and installed. *)
Definition get_configuration : M object :=
  (let* current := get_configuration_if_set in
   match current with
   | Some configuration => ret configuration
   | None =>
       let* configuration := new Configuration in
       set_configuration configuration ;;;
       ret configuration
   end)%py.

End service_container.

Definition mismatch_message (cls actual : pyclass) : string :=
  "Requested global configuration object of type " +:+ class_repr cls
  +:+ ", but " +:+ class_repr actual +:+ " was found".

(** [Configuration.get_global_configuration], a class method: [cls] is the
    class it is called on. *)
Definition get_global_configuration (cls : pyclass) : M object :=
  (let* current := service_container.get_configuration_if_set in
   match current with
   | None =>
       let* instance := new cls in
       service_container.set_configuration instance
   | Some _ => ret tt
   end ;;;
   let* global_instance := service_container.get_configuration in
   if negb (isinstance global_instance cls)
   then raise (TypeError (mismatch_message cls (obj_class global_instance)))
   else ret global_instance)%py.

(** Calls of the accessor made one after the other, on the classes
    [clss]: their results, and the state they leave. *)
Fixpoint calls (clss : list pyclass) (st : state)
    : list (exception + object) * state :=
  match clss with
  | [] => ([], st)
  | cls :: rest =>
      let '(r, st') := get_global_configuration cls st in
      let '(rs, st'') := calls rest st' in
      (r :: rs, st'')
  end.

(** A class derived from [parent], as a project that embeds the crawler
    declares one: it inherits the configuration of the model and the
    fields, and may add fields of its own. *)
Definition subclass (module name : string) (parent : pyclass)
    (own_fields : list field) : pyclass :=
  PyClass module name (qualified_name parent :: cls_bases parent)
    (populate_by_name parent) (model_fields parent ++ own_fields).

Definition ProjectConfiguration : pyclass :=
  subclass "project.settings" "ProjectConfiguration" Configuration [].

(** ** Callers that run at the same time

    A call of [get_global_configuration] proceeds by the calls it makes, one
    at a time; between two of them another thread may run.  A thread is the
    class it calls the accessor on and the point it has reached. *)

Inductive pc :=
  | at_check                                (* [get_configuration_if_set() is None] *)
  | at_construct                            (* [cls()] *)
  | at_set (instance : object)              (* [set_configuration(...)] *)
  | at_get                                  (* [get_configuration()] *)
  | at_isinstance (global_instance : object)(* the check and the return *)
  | finished (result : exception + object).

Record thread := Thread { thr_cls : pyclass; thr_pc : pc }.

(** Run one call; go on to the next point with its result, or finish with
    the exception it raised. *)
Definition advance {A} (m : M A) (next : A → pc) (st : state) : pc * state :=
  match m st with
  | (inr a, st') => (next a, st')
  | (inl e, st') => (finished (inl e), st')
  end.

Definition pc_step (cls : pyclass) (p : pc) : state → pc * state :=
  match p with
  | at_check =>
      advance service_container.get_configuration_if_set
        (λ current, match current with None => at_construct | Some _ => at_get end)
  | at_construct => advance (new cls) at_set
  | at_set instance =>
      advance (service_container.set_configuration instance) (λ _, at_get)
  | at_get => advance service_container.get_configuration at_isinstance
  | at_isinstance global_instance =>
      advance
        (if negb (isinstance global_instance cls)
         then raise (TypeError (mismatch_message cls (obj_class global_instance)))
         else ret global_instance)
        (λ o, finished (inr o))
  | finished r => λ st, (finished r, st)
  end.

Definition thread_step (t : thread) (st : state) : thread * state :=
  let '(p, st') := pc_step (thr_cls t) (thr_pc t) st in (Thread (thr_cls t) p, st').

(** The threads of the process and the state they share. *)
Definition system : Type := state * list thread.

(** Thread [i] takes its next step. *)
Definition schedule_step (sys : system) (i : nat) : system :=
  match sys.2 !! i with
  | Some t => let '(t', st') := thread_step t sys.1 in (st', <[i := t']> sys.2)
  | None => sys
  end.

(** A schedule names the thread that moves at each step. *)
Definition run (schedule : list nat) (sys : system) : system :=
  foldl schedule_step sys schedule.

(** A call takes at most this many steps. *)
Definition call_steps : nat := 5.

(** All threads are at the start of a call on [cls]. *)
Definition callers (n : nat) (cls : pyclass) : list thread :=
  replicate n (Thread cls at_check).

(** The state of a process that has just started. *)
Definition initial_state (env_vars : gmap string string) : state :=
  State env_vars 0 None.

(** The identity of the instance a thread's call has returned. *)
Definition returned_id (t : thread) : option nat :=
  match thr_pc t with
  | finished (inr o) => Some (obj_id o)
  | _ => None
  end.

(** ** Notions used in the statements *)

(** The attributes of an instance when the input supplies no field. *)
Definition class_defaults (cls : pyclass) : gmap string value :=
  list_to_map ((λ f, (fld_name f, fld_default f)) <$> model_fields cls).

Definition Configuration_defaults : gmap string value :=
  class_defaults Configuration.

(** The keys of a field: its aliases and its name. *)
Definition field_keys (f : field) : list string :=
  fld_aliases f ++ [fld_name f].

(** No key is declared twice in the class, neither within a field nor by
    two fields. *)
Definition well_keyed (cls : pyclass) : Prop :=
  NoDup (mjoin (field_keys <$> model_fields cls)).

(** [s] spells [m] up to the case of its letters. *)
Definition same_ignoring_case (s m : string) : Prop :=
  Text.lower s = Text.lower m.

(** The characters that occur in the spellings of numbers: digits, white
    space, signs, the digit separator, the decimal point and the exponent
    mark. *)
Definition numeric_char (c : ascii) : bool :=
  bool_decide (is_Some (Text.digit_value c)) || Ascii.is_space c
  || bool_decide (c ∈ ["+"; "-"; "_"; "."; "e"; "E"]%char).

(** Text that is not a number: it holds no digit at all, or it holds an
    ASCII character that occurs in no spelling of a number. *)
Definition non_numeric (s : string) : Prop :=
  (∀ c, c ∈ Text.chars s → Text.digit_value c = None)
  ∨ (∃ c, c ∈ Text.chars s ∧ Text.ascii_char c = true ∧ numeric_char c = false).

(** [c] is a proper subclass of [d]. *)
Definition strict_subclass (c d : pyclass) : Prop :=
  qualified_name d ∈ cls_bases c ∧ qualified_name c ≠ qualified_name d.

(** [sub] occurs in [s]. *)
Definition contains (s sub : string) : Prop :=
  ∃ pre post, s = pre +:+ sub +:+ post.

(** A field whose annotation is text: the raw text is the value. *)
Definition text_field (f : field) : Prop :=
  (fld_annotation f = t_str ∨ fld_annotation f = t_optional t_str)
  ∧ fld_before f = None.

(** How far a call has got: the number of steps it has at least taken. *)
Definition progress (p : pc) : nat :=
  match p with
  | at_check => 0
  | at_construct => 1
  | at_set _ => 2
  | at_get => 3
  | at_isinstance _ => 4
  | finished _ => 5
  end.

(** Where a call can be once the instance [o] is in place and the call
    has constructed none of its own: before its check, about to read the
    slot, holding [o], or returned with [o]. *)
Definition settled (o : object) (p : pc) : Prop :=
  p = at_check ∨ p = at_get ∨ p = at_isinstance o ∨ p = finished (inr o).

(** The number of steps the schedule gives to thread [i]. *)
Definition turns (schedule : list nat) (i : nat) : nat :=
  length (filter (λ j, j = i) schedule).

(** ** Notions used in the further properties *)

(** All keys of a class: the aliases and names of all its fields. *)
Definition class_keys (cls : pyclass) : list string :=
  mjoin (field_keys <$> model_fields cls).

(** The source names of the project itself start with [crawlee_]; the
    others are those of the hosting platform. *)
Definition project_name (a : string) : bool := String.prefix "crawlee_" a.

(** The options of the constructor of settings classes start with an
    underscore; a keyword argument of such a name may be an option, not a
    value for the model. *)
Definition option_name (k : string) : bool := String.prefix "_" k.

(** A thread that has returned holds an instance of the class it called
    the accessor on. *)
Definition well_returned (t : thread) : Prop :=
  match thr_pc t with
  | finished (inr o) => isinstance o (thr_cls t) = true
  | _ => True
  end.

(** The number of instances a thread may still construct: one as long as
    it has not got past the construction. *)
Definition may_construct (t : thread) : nat :=
  match thr_pc t with
  | at_check | at_construct => 1
  | _ => 0
  end.

(** No thread is about to read a slot that is empty. *)
Definition readers_served (sys : system) : Prop :=
  services_configuration sys.1 = None → Forall (λ t, thr_pc t ≠ at_get) sys.2.

(** Threads at the start of their calls, one for each class of [clss]. *)
Definition callers_of (clss : list pyclass) : list thread :=
  (λ cls, Thread cls at_check) <$> clss.

(** * Properties *)

(** ** The first key present *)

Section first_present.
Implicit Types (m : gmap string string) (ks : list string).

Lemma first_present_Some ks m k v :
  first_present ks m = Some (k, v) ↔
  ∃ pre post, ks = pre ++ k :: post
              ∧ Forall (λ k', m !! k' = None) pre ∧ m !! k = Some v.
Proof.
  induction ks as [|k0 ks IH]; simpl.
  - split; [done|]. intros (pre & post & Heq & _). by destruct pre.
  - destruct (m !! k0) as [v0|] eqn:Hk0.
    + split.
      * intros [= <- <-]. exists [], ks. by repeat split.
      * intros ([|k1 pre] & post & Heq & Hpre & Hk); simplify_eq/=.
        { done. }
        apply Forall_cons in Hpre as [? _]. congruence.
    + rewrite IH. split.
      * intros (pre & post & -> & Hpre & Hk).
        exists (k0 :: pre), post. repeat split; [|done]. by constructor.
      * intros ([|k1 pre] & post & Heq & Hpre & Hk); simplify_eq/=.
        apply Forall_cons in Hpre as [_ Hpre]. by exists pre, post.
Qed.

Lemma first_present_None ks m :
  first_present ks m = None ↔ Forall (λ k, m !! k = None) ks.
Proof.
  induction ks as [|k0 ks IH]; simpl.
  - split; [by constructor|done].
  - destruct (m !! k0) eqn:Hk0.
    + split; [done|]. intros [? _]%Forall_cons. congruence.
    + rewrite IH. split; [by constructor|]. by intros [_ ?]%Forall_cons.
Qed.

Lemma first_present_elem ks m k v :
  first_present ks m = Some (k, v) → k ∈ ks ∧ m !! k = Some v.
Proof.
  intros (pre & post & -> & _ & Hk)%first_present_Some. split; [|done].
  apply elem_of_app. right. by left.
Qed.

(** The first key of the list wins when it is present. *)
Lemma first_present_head k ks m v :
  m !! k = Some v → first_present (k :: ks) m = Some (k, v).
Proof. intros Hk. simpl. by rewrite Hk. Qed.

(** The winner in a map is also the winner in a smaller map that still
    defines it. *)
Lemma first_present_weaken ks m m' k v :
  m ⊆ m' → first_present ks m' = Some (k, v) → m !! k = Some v →
  first_present ks m = Some (k, v).
Proof.
  intros Hsub (pre & post & -> & Hpre & Hk)%first_present_Some Hmk.
  apply first_present_Some. exists pre, post. repeat split; [|done].
  eapply Forall_impl; [exact Hpre|]. intros k' Hk'. simpl in Hk'.
  destruct (m !! k') as [w|] eqn:Hw; [|done].
  eapply lookup_weaken in Hw; [|exact Hsub]. congruence.
Qed.

Lemma first_present_singleton ks k v :
  first_present ks {[k := v]} = if decide (k ∈ ks) then Some (k, v) else None.
Proof.
  induction ks as [|k0 ks IH]; cbn [first_present].
  - by rewrite decide_False by apply not_elem_of_nil.
  - destruct (decide (k = k0)) as [<-|Hne].
    + rewrite lookup_singleton_eq. rewrite decide_True; [done|by left].
    + rewrite lookup_singleton_ne by done. rewrite IH.
      destruct (decide (k ∈ ks)) as [Hin|Hnin].
      * rewrite decide_True; [done|by right].
      * rewrite decide_False; [done|]. by intros [?|?]%elem_of_cons.
Qed.
End first_present.

(** ** Classes whose keys are distinct *)

Section distinct_keys.
Context {A B : Type} (F : A → list B).

Lemma mjoin_once (l : list A) (a b : A) (x : B) :
  NoDup (mjoin (F <$> l)) → a ∈ l → b ∈ l → x ∈ F a → x ∈ F b → a = b.
Proof.
  induction l as [|a0 l IH]; [by intros _ ?%elem_of_nil|].
  rewrite fmap_cons. cbn [mjoin list_join].
  intros (_ & Hdisj & Hl)%NoDup_app Ha Hb Hxa Hxb.
  assert (∀ c, c ∈ l → x ∈ F c → x ∈ mjoin (F <$> l)) as Hin.
  { intros c Hc Hx. apply list_elem_of_join. exists (F c). split; [done|].
    by apply list_elem_of_fmap_2. }
  apply elem_of_cons in Ha as [->|Ha]; apply elem_of_cons in Hb as [->|Hb].
  - done.
  - destruct (Hdisj x); eauto.
  - destruct (Hdisj x); eauto.
  - eauto.
Qed.

Lemma mjoin_NoDup_fmap (h : A → B) (l : list A) :
  (∀ a, h a ∈ F a) → NoDup (mjoin (F <$> l)) → NoDup (h <$> l).
Proof.
  intros Hh. induction l as [|a0 l IH]; [constructor|].
  rewrite !fmap_cons. cbn [mjoin list_join].
  intros (_ & Hdisj & Hl)%NoDup_app. constructor; [|by apply IH].
  intros (b & Heq & Hb)%list_elem_of_fmap.
  apply (Hdisj (h a0)); [apply Hh|].
  apply list_elem_of_join. exists (F b). split.
  - rewrite Heq. apply Hh.
  - by apply list_elem_of_fmap_2.
Qed.
End distinct_keys.

Section well_keyed.
Context (cls : pyclass) (Hwf : well_keyed cls).

Lemma well_keyed_same (f g : field) (k : string) :
  f ∈ model_fields cls → g ∈ model_fields cls →
  k ∈ field_keys f → k ∈ field_keys g → f = g.
Proof. intros. by eapply (mjoin_once field_keys). Qed.

Lemma well_keyed_names : NoDup (fld_name <$> model_fields cls).
Proof.
  apply (mjoin_NoDup_fmap field_keys); [|done].
  intros f. apply elem_of_app. right. by left.
Qed.
End well_keyed.

Lemma lookup_keys_keys (cls : pyclass) (f : field) (k : string) :
  k ∈ lookup_keys cls f → k ∈ field_keys f.
Proof.
  unfold lookup_keys, field_keys. destruct (fld_aliases f) as [|a l] eqn:Hal.
  - by rewrite app_nil_l.
  - destruct (populate_by_name cls); [done|].
    intros Hk. apply elem_of_app. by left.
Qed.

(** The environment source and validation try the same names in the same
    order. *)
Lemma env_names_lookup_keys (cls : pyclass) (f : field) :
  env_names cls f = lookup_keys cls f.
Proof.
  unfold env_names, lookup_keys. destruct (fld_aliases f) as [|a l]; [done|].
  by destruct (populate_by_name cls).
Qed.

Lemma env_names_keys (cls : pyclass) (f : field) (k : string) :
  k ∈ env_names cls f → k ∈ field_keys f.
Proof. rewrite env_names_lookup_keys. apply lookup_keys_keys. Qed.

Lemma Configuration_well_keyed : well_keyed Configuration.
Proof. unfold well_keyed. apply (bool_decide_unpack _). by vm_compute. Qed.

(** ** The environment source *)

Section env_source.
Context (cls : pyclass) (env_vars : gmap string string).

Local Abbreviation enter := (λ (data : gmap string string) f,
  match get_field_value cls f env_vars with
  | Some (field_key, field_value) => <[field_key := field_value]> data
  | None => data
  end).

Lemma env_fold_subseteq (fs : list field) (acc : gmap string string) :
  acc ⊆ env_vars → foldl enter acc fs ⊆ env_vars.
Proof.
  revert acc. induction fs as [|f fs IH]; intros acc Hacc; [done|].
  cbn [foldl]. apply IH.
  destruct (get_field_value cls f env_vars) as [[k v]|] eqn:Hf; [|done].
  apply first_present_elem in Hf as [_ Hk]. by apply insert_subseteq_l.
Qed.

Lemma env_fold_lookup (fs : list field) (acc : gmap string string) k v :
  acc ⊆ env_vars →
  foldl enter acc fs !! k = Some v ↔
  acc !! k = Some v ∨ ∃ f, f ∈ fs ∧ get_field_value cls f env_vars = Some (k, v).
Proof.
  revert acc. induction fs as [|f fs IH]; intros acc Hacc.
  - cbn [foldl]. split; [by left|]. intros [?|(f & []%elem_of_nil & _)]. done.
  - cbn [foldl].
    destruct (get_field_value cls f env_vars) as [[k0 v0]|] eqn:Hf.
    + pose proof (first_present_elem _ _ _ _ Hf) as [_ Hk0].
      rewrite IH by by apply insert_subseteq_l.
      rewrite lookup_insert_Some. split.
      * intros [[[-> ->]|[? ?]]|(g & Hg & Hgv)].
        -- right. exists f. split; [by left|done].
        -- by left.
        -- right. exists g. split; [by right|done].
      * intros [Hk|(g & Hg & Hgv)].
        -- left. destruct (decide (k0 = k)) as [->|]; [|by right].
           left. split; [done|].
           eapply lookup_weaken in Hk; [|exact Hacc]. congruence.
        -- apply elem_of_cons in Hg as [->|Hg].
           ++ left. left. by simplify_eq.
           ++ right. by exists g.
    + rewrite IH by done. split.
      * intros [?|(g & Hg & Hgv)]; [by left|].
        right. exists g. split; [by right|done].
      * intros [?|(g & Hg & Hgv)]; [by left|].
        apply elem_of_cons in Hg as [->|Hg]; [congruence|].
        right. by exists g.
Qed.

(** The source holds exactly the winning entry of every field. *)
Lemma env_source_lookup k v :
  EnvSettingsSource cls env_vars !! k = Some v ↔
  ∃ f, f ∈ model_fields cls ∧ get_field_value cls f env_vars = Some (k, v).
Proof.
  unfold EnvSettingsSource. rewrite env_fold_lookup by apply map_empty_subseteq.
  rewrite lookup_empty. split; [by intros [?|?]|by right].
Qed.

Lemma env_source_subseteq : EnvSettingsSource cls env_vars ⊆ env_vars.
Proof. apply env_fold_subseteq, map_empty_subseteq. Qed.

(** Keys that neither input defines are not among the values built. *)
Lemma settings_build_values_None (init_kwargs : gmap string string) k :
  init_kwargs !! k = None → env_vars !! k = None →
  settings_build_values cls init_kwargs env_vars !! k = None.
Proof.
  intros Hkw Henv. unfold settings_build_values.
  apply lookup_union_None. split; [done|].
  destruct (EnvSettingsSource cls env_vars !! k) as [v|] eqn:Hv; [|done].
  eapply lookup_weaken in Hv; [|apply env_source_subseteq]. congruence.
Qed.
End env_source.

Lemma env_source_empty (cls : pyclass) : EnvSettingsSource cls ∅ = ∅.
Proof.
  apply map_eq. intros k. rewrite lookup_empty.
  destruct (EnvSettingsSource cls ∅ !! k) as [v|] eqn:Hk; [|done].
  eapply lookup_weaken in Hk; [|apply env_source_subseteq].
  by rewrite lookup_empty in Hk.
Qed.

Lemma settings_build_values_env (cls : pyclass) (env_vars : gmap string string) :
  settings_build_values cls ∅ env_vars = EnvSettingsSource cls env_vars.
Proof. unfold settings_build_values. by rewrite (left_id_L ∅ (∪)). Qed.

(** ** Fields resolved from the environment *)

Section from_env.
Context (cls : pyclass) (env_vars : gmap string string).

Local Abbreviation data := (settings_build_values cls ∅ env_vars).

(** The entry that wins in the environment is the entry that validation
    finds. *)
Lemma lookup_winner (f : field) k raw :
  f ∈ model_fields cls →
  get_field_value cls f env_vars = Some (k, raw) →
  first_present (lookup_keys cls f) data = Some (k, raw).
Proof.
  intros Hf Hwin. rewrite settings_build_values_env, <-env_names_lookup_keys.
  eapply first_present_weaken; [apply env_source_subseteq|exact Hwin|].
  apply env_source_lookup. by exists f.
Qed.
End from_env.

(** A field none of whose keys the input defines finds nothing. *)
Lemma lookup_absent (cls : pyclass) (init_kwargs env_vars : gmap string string)
    (f : field) :
  (∀ k, k ∈ field_keys f → init_kwargs !! k = None ∧ env_vars !! k = None) →
  first_present (lookup_keys cls f)
    (settings_build_values cls init_kwargs env_vars) = None.
Proof.
  intros Hnone. apply first_present_None, Forall_forall. intros k Hk.
  destruct (Hnone k (lookup_keys_keys cls f k Hk)) as [Hkw Henv].
  by apply settings_build_values_None.
Qed.

(** ** Validation of the model *)

Section model_validate.
Context (cls : pyclass) (data : gmap string string).

Lemma model_validate_inr attrs :
  model_validate cls data = inr attrs ↔
  field_raised cls data = [] ∧ field_errors cls data = []
  ∧ extra_errors cls data = []
  ∧ attrs = list_to_map (field_values cls data).
Proof.
  unfold model_validate.
  destruct (field_raised cls data) as [|e0 es].
  2: { split; [done|]. by intros (? & _). }
  destruct (field_errors cls data ++ extra_errors cls data) as [|e errs] eqn:Herrs.
  - apply app_eq_nil in Herrs as [-> ->]. split; [by intros [= <-]|].
    by intros (_ & _ & _ & ->).
  - split; [done|]. intros (_ & Hf & Hx & _). by rewrite Hf, Hx in Herrs.
Qed.

(** What a failed validation raises: the first exception a validator
    raised, or else the validation error with all the error lines. *)
Lemma model_validate_inl e :
  model_validate cls data = inl e ↔
  head (field_raised cls data) = Some e
  ∨ (field_raised cls data = []
     ∧ field_errors cls data ++ extra_errors cls data ≠ []
     ∧ e = ValidationError (cls_name cls)
             (field_errors cls data ++ extra_errors cls data)).
Proof.
  unfold model_validate.
  destruct (field_raised cls data) as [|e0 es]; cbn [head].
  - destruct (field_errors cls data ++ extra_errors cls data) as [|l errs].
    + split; [done|]. intros [?|(_ & ? & _)]; done.
    + split.
      * intros [= <-]. right. by repeat split.
      * intros [?|(_ & _ & ->)]; done.
  - split.
    + intros [= <-]. by left.
    + intros [[= <-]|(? & _)]; done.
Qed.

(** With an error line the validation does not return. *)
Lemma model_validate_line (l : line_error) :
  l ∈ field_errors cls data ++ extra_errors cls data →
  ∃ e, model_validate cls data = inl e
       ∧ (e ∈ field_raised cls data
          ∨ ∃ errors, e = ValidationError (cls_name cls) errors ∧ l ∈ errors).
Proof.
  intros Hl. unfold model_validate.
  destruct (field_raised cls data) as [|e0 es].
  - destruct (field_errors cls data ++ extra_errors cls data) as [|l0 errs] eqn:Herrs.
    + by apply elem_of_nil in Hl.
    + eexists. split; [done|]. right. by eexists.
  - exists e0. split; [done|]. left. by left.
Qed.

Lemma field_values_sublist :
  (field_values cls data).*1 `sublist_of` fld_name <$> model_fields cls.
Proof.
  unfold field_values. induction (model_fields cls) as [|f fs IH]; [done|].
  cbn [omap list_omap]. rewrite fmap_cons.
  destruct (validate_model_field cls f data); cbn [outcome_value].
  - rewrite fmap_cons. by apply sublist_skip.
  - by apply sublist_cons.
  - by apply sublist_cons.
Qed.

(** In an instance every field was found valid. *)
Lemma valid_field (attrs : gmap string value) f :
  model_validate cls data = inr attrs → f ∈ model_fields cls →
  ∃ k v, validate_model_field cls f data = Valid k v.
Proof.
  intros (Hraised & Herr & _ & _)%model_validate_inr Hf.
  destruct (validate_model_field cls f data) as [k v|k e|e] eqn:Hout.
  - by exists k, v.
  - assert (e ∈ field_errors cls data) as He.
    { apply list_elem_of_omap. exists f. split; [done|]. by rewrite Hout. }
    rewrite Herr in He. by apply elem_of_nil in He.
  - assert (e ∈ field_raised cls data) as He.
    { apply list_elem_of_omap. exists f. split; [done|]. by rewrite Hout. }
    rewrite Hraised in He. by apply elem_of_nil in He.
Qed.

(** A field of an instance holds the value its validation produced. *)
Lemma valid_field_lookup attrs f :
  NoDup (fld_name <$> model_fields cls) →
  model_validate cls data = inr attrs → f ∈ model_fields cls →
  ∃ k v, validate_model_field cls f data = Valid k v
         ∧ attrs !! fld_name f = Some v.
Proof.
  intros Hnames Hinit Hf.
  destruct (valid_field attrs f Hinit Hf) as (k & v & Hout).
  apply model_validate_inr in Hinit as (_ & _ & _ & ->).
  exists k, v. split; [done|].
  apply elem_of_list_to_map_1.
  - eapply sublist_NoDup; [done|apply field_values_sublist].
  - apply list_elem_of_omap. exists f. split; [done|]. by rewrite Hout.
Qed.

(** One field in error makes the whole construction fail, and the error of
    the field is among those reported, unless a validator raised. *)
Lemma invalid_field_raises f k l :
  f ∈ model_fields cls → validate_model_field cls f data = Invalid k l →
  ∃ e, model_validate cls data = inl e
       ∧ (e ∈ field_raised cls data
          ∨ ∃ errors, e = ValidationError (cls_name cls) errors ∧ l ∈ errors).
Proof.
  intros Hf Hout. apply model_validate_line.
  apply elem_of_app. left. apply list_elem_of_omap.
  exists f. split; [done|]. by rewrite Hout.
Qed.

(** Every field has a value in every instance. *)
Lemma instance_total attrs f :
  model_validate cls data = inr attrs → f ∈ model_fields cls →
  is_Some (attrs !! fld_name f).
Proof.
  intros Hinit Hf.
  destruct (valid_field attrs f Hinit Hf) as (k & v & Hout).
  apply model_validate_inr in Hinit as (_ & _ & _ & ->).
  apply not_eq_None_Some. intros Hnone%not_elem_of_list_to_map_2.
  apply Hnone. apply list_elem_of_fmap. exists (fld_name f, v). split; [done|].
  apply list_elem_of_omap. exists f. split; [done|]. by rewrite Hout.
Qed.

(** An instance has no attributes besides its fields. *)
Lemma instance_dom attrs k :
  model_validate cls data = inr attrs → is_Some (attrs !! k) →
  k ∈ fld_name <$> model_fields cls.
Proof.
  intros (_ & _ & _ & ->)%model_validate_inr [v Hv].
  apply elem_of_list_to_map_2 in Hv.
  apply list_elem_of_omap in Hv as (f & Hf & Hout).
  destruct (validate_model_field cls f data); simplify_eq/=.
  by apply list_elem_of_fmap_2.
Qed.
End model_validate.

(** ** Construction from a single keyword argument *)

Section single_key.
Context (cls : pyclass) (Hwf : well_keyed cls).
Context (f : field) (k raw : string) (v : value).
Context (Hf : f ∈ model_fields cls) (Hk : k ∈ lookup_keys cls f).
Context (Hv : validate_field f raw = Returns v).

Local Abbreviation data := ({[k := raw]} : gmap string string).

Lemma single_key_field g :
  g ∈ model_fields cls →
  validate_model_field cls g data
  = if decide (k ∈ lookup_keys cls g) then Valid (Some k) v
    else Valid None (fld_default g).
Proof.
  intros Hg. unfold validate_model_field. rewrite first_present_singleton.
  destruct (decide (k ∈ lookup_keys cls g)) as [Hin|]; [|done].
  assert (g = f) as ->.
  { eapply (well_keyed_same cls Hwf g f k); eauto using lookup_keys_keys. }
  unfold validate_entry. by rewrite Hv.
Qed.

Lemma single_key_errors : field_errors cls data = [].
Proof.
  unfold field_errors.
  assert (Forall (λ g, g ∈ model_fields cls) (model_fields cls)) as Hall.
  { by apply Forall_forall. }
  induction Hall as [|g gs Hg _ IH]; [done|].
  cbn [omap list_omap]. rewrite single_key_field by done.
  by destruct (decide (k ∈ lookup_keys cls g)).
Qed.

Lemma single_key_raised : field_raised cls data = [].
Proof.
  unfold field_raised.
  assert (Forall (λ g, g ∈ model_fields cls) (model_fields cls)) as Hall.
  { by apply Forall_forall. }
  induction Hall as [|g gs Hg _ IH]; [done|].
  cbn [omap list_omap]. rewrite single_key_field by done.
  by destruct (decide (k ∈ lookup_keys cls g)).
Qed.

Lemma single_key_values :
  field_values cls data
  = (λ g, (fld_name g, if decide (k ∈ lookup_keys cls g) then v
                       else fld_default g)) <$> model_fields cls.
Proof.
  unfold field_values.
  assert (Forall (λ g, g ∈ model_fields cls) (model_fields cls)) as Hall.
  { by apply Forall_forall. }
  induction Hall as [|g gs Hg _ IH]; [done|].
  cbn [omap list_omap]. rewrite fmap_cons, single_key_field by done.
  rewrite <-IH. by destruct (decide (k ∈ lookup_keys cls g)).
Qed.

Lemma single_key_used : k ∈ used_keys cls data.
Proof.
  apply list_elem_of_omap. exists f. split; [done|].
  rewrite single_key_field by done. by rewrite decide_True.
Qed.

Lemma single_key_extra : extra_errors cls data = [].
Proof.
  unfold extra_errors. rewrite map_to_list_singleton.
  rewrite filter_cons_False; [done|].
  cbn [fst]. intros Hnot. apply Hnot, single_key_used.
Qed.

Lemma lookup_by_name (h : field → value) (n : string) (x : value) :
  (list_to_map ((λ g, (fld_name g, h g)) <$> model_fields cls)
     : gmap string value) !! n = Some x
  ↔ ∃ g, g ∈ model_fields cls ∧ fld_name g = n ∧ h g = x.
Proof.
  rewrite <-elem_of_list_to_map.
  - rewrite list_elem_of_fmap. split.
    + intros (g & [= -> ->] & Hg). by exists g.
    + intros (g & Hg & <- & <-). by exists g.
  - rewrite <-list_fmap_compose. by apply well_keyed_names.
Qed.

(** The instance is the instance of defaults with the one field set. *)
Lemma single_key_instance :
  model_validate cls data = inr (<[fld_name f := v]> (class_defaults cls)).
Proof.
  apply model_validate_inr. split; [apply single_key_raised|].
  split; [apply single_key_errors|]. split; [apply single_key_extra|].
  rewrite single_key_values. apply map_eq. intros n. apply option_eq. intros x.
  rewrite lookup_insert_Some. unfold class_defaults. rewrite !lookup_by_name.
  split.
  - intros [[<- <-]|[Hne (g & Hg & <- & <-)]].
    + exists f. by rewrite decide_True.
    + exists g. split; [done|]. split; [done|].
      rewrite decide_False; [done|]. intros Hin. apply Hne. f_equal.
      eapply (well_keyed_same cls Hwf f g k); eauto using lookup_keys_keys.
  - intros (g & Hg & <- & <-).
    destruct (decide (k ∈ lookup_keys cls g)) as [Hin|Hnin].
    + left. split; [|done]. f_equal.
      eapply (well_keyed_same cls Hwf f g k); eauto using lookup_keys_keys.
    + right. split; [|by exists g]. intros Heq. apply Hnin.
      assert (f = g) as <-; [|done].
      eapply (well_keyed_same cls Hwf f g (fld_name f)); [done..| |].
      * apply elem_of_app. right. by left.
      * rewrite Heq. apply elem_of_app. right. by left.
Qed.
End single_key.

(** ** Text *)

Lemma ascii_char_lt (c : ascii) :
  Text.ascii_char c = true ↔ (N_of_ascii c < 0x80)%N.
Proof. unfold Text.ascii_char. apply N.ltb_lt. Qed.

Lemma upper_lower_ascii (c : ascii) :
  Text.upper_ascii (Text.lower_ascii c) = Text.upper_ascii c.
Proof. by destruct c as [[] [] [] [] [] [] [] []]. Qed.

Lemma upper_lower (s : string) :
  Text.map_string Text.upper_ascii (Text.lower s)
  = Text.map_string Text.upper_ascii s.
Proof.
  induction s as [|c s IH]; [done|].
  unfold Text.lower in *. cbn [Text.map_string].
  by rewrite upper_lower_ascii, IH.
Qed.

Lemma lower_ascii_char (c : ascii) :
  Text.ascii_char (Text.lower_ascii c) = Text.ascii_char c.
Proof. by destruct c as [[] [] [] [] [] [] [] []]. Qed.

Lemma lower_is_ascii (s : string) :
  Text.is_ascii (Text.lower s) = Text.is_ascii s.
Proof.
  induction s as [|c s IH]; [done|].
  unfold Text.lower in *. cbn [Text.map_string Text.is_ascii].
  by rewrite lower_ascii_char, IH.
Qed.

(** On an ASCII character the table of upper-case forms does what
    [upper_ascii] does. *)
Lemma upper_code_ascii (c : ascii) :
  Text.ascii_char c = true →
  Text.upper_code (N_of_ascii c) = [N_of_ascii (Text.upper_ascii c)]
  ∧ Text.ascii_char (Text.upper_ascii c) = true.
Proof.
  destruct c as [[] [] [] [] [] [] [] []]; intros Hc; try discriminate Hc;
    split; vm_compute; reflexivity.
Qed.

Lemma code_points_ascii (c : ascii) (s : string) :
  Text.ascii_char c = true →
  Text.code_points (String c s) = N_of_ascii c :: Text.code_points s.
Proof.
  intros Hc. unfold Text.ascii_char in Hc.
  change (Text.code_points (String c s))
    with (if (N_of_ascii c <? 0x80)%N then N_of_ascii c :: Text.code_points s
          else match s with
               | EmptyString => [Text.escaped (N_of_ascii c)]
               | String _ _ => Text.code_points (String c s)
               end) at 1 || idtac.
  cbn [Text.code_points]. by rewrite Hc.
Qed.

Lemma utf8_ascii (c : ascii) :
  Text.ascii_char c = true → Text.utf8 (N_of_ascii c) = String c EmptyString.
Proof.
  intros Hc. unfold Text.ascii_char in Hc. unfold Text.utf8, Text.byte.
  by rewrite Hc, ascii_N_embedding.
Qed.

(** On ASCII text [str.upper] maps the letters a to z and nothing else. *)
Lemma upper_ascii_text (s : string) :
  Text.is_ascii s = true → Text.upper s = Text.map_string Text.upper_ascii s.
Proof.
  induction s as [|c s IH]; [done|].
  cbn [Text.is_ascii Text.map_string]. intros [Hc Hs]%andb_true_iff.
  unfold Text.upper in *. rewrite (code_points_ascii c s Hc).
  cbn [mbind list_bind]. destruct (upper_code_ascii c Hc) as [-> Hup].
  cbn [app Text.encode]. by rewrite (utf8_ascii _ Hup), IH.
Qed.

(** A spelling of an ASCII word, up to the case of its letters, has the
    upper-case form of the word. *)
Lemma same_ignoring_case_upper (s m : string) :
  Text.is_ascii m = true → same_ignoring_case s m → Text.upper s = Text.upper m.
Proof.
  unfold same_ignoring_case. intros Hm Heq.
  assert (Text.is_ascii s = true) as Hs.
  { by rewrite <-lower_is_ascii, Heq, lower_is_ascii. }
  rewrite !upper_ascii_text by done.
  by rewrite <-(upper_lower s), Heq, upper_lower.
Qed.

Lemma log_levels_upper (m : string) :
  m ∈ log_levels → Text.is_ascii m = true ∧ Text.upper m = m.
Proof.
  unfold log_levels. rewrite !elem_of_cons, elem_of_nil.
  intros [->|[->|[->|[->|[->|[]]]]]]; split; vm_compute; reflexivity.
Qed.

(** *** White space at the ends *)

Lemma space2_bytes (c0 c1 : ascii) :
  Text.space2 (N_of_ascii c0) (N_of_ascii c1) = true →
  Text.ascii_char c0 = false ∧ Text.ascii_char c1 = false.
Proof.
  unfold Text.space2, Text.ascii_char.
  intros [H0%N.eqb_eq H1]%andb_true_iff. rewrite H0.
  by apply orb_true_iff in H1 as [->%N.eqb_eq| ->%N.eqb_eq].
Qed.

Lemma space3_bytes (c0 c1 c2 : ascii) :
  Text.space3 (N_of_ascii c0) (N_of_ascii c1) (N_of_ascii c2) = true →
  Text.ascii_char c0 = false ∧ Text.ascii_char c1 = false
  ∧ Text.ascii_char c2 = false.
Proof.
  unfold Text.space3, Text.ascii_char. rewrite !orb_true_iff, !andb_true_iff.
  rewrite !orb_true_iff, !andb_true_iff, !N.eqb_eq, !N.leb_le.
  intros H. repeat split; apply N.ltb_ge; lia.
Qed.

Lemma space2_ascii (c0 : ascii) (b1 : N) :
  Text.ascii_char c0 = true → Text.space2 (N_of_ascii c0) b1 = false.
Proof.
  intros Hc%ascii_char_lt. unfold Text.space2.
  assert ((N_of_ascii c0 =? 0xC2)%N = false) as ->; [|done].
  apply N.eqb_neq. lia.
Qed.

Lemma space3_ascii (c0 : ascii) (b1 b2 : N) :
  Text.ascii_char c0 = true → Text.space3 (N_of_ascii c0) b1 b2 = false.
Proof.
  intros Hc%ascii_char_lt. unfold Text.space3.
  assert ((N_of_ascii c0 =? 0xE1)%N = false) as ->. { apply N.eqb_neq. lia. }
  assert ((N_of_ascii c0 =? 0xE2)%N = false) as ->. { apply N.eqb_neq. lia. }
  assert ((N_of_ascii c0 =? 0xE3)%N = false) as ->. { apply N.eqb_neq. lia. }
  done.
Qed.

(** An ASCII character that is no blank stops the trimming. *)
Lemma lstrip_head (c : ascii) (s : string) :
  Text.ascii_char c = true → Ascii.is_space c = false →
  Text.lstrip (String c s) = String c s.
Proof.
  intros Hc Hsp. cbn [Text.lstrip]. rewrite Hsp.
  destruct s as [|c1 [|c2 s]]; [done| |].
  - by rewrite space2_ascii.
  - by rewrite space2_ascii, space3_ascii.
Qed.

(** What is trimmed off the front is white space: ASCII blanks, and bytes
    that are no ASCII characters. *)
Lemma lstrip_split (s : string) :
  ∃ pre, s = pre +:+ Text.lstrip s
         ∧ Forall (λ c, Ascii.is_space c = true ∨ Text.ascii_char c = false)
             (Text.chars pre).
Proof.
  remember (String.length s) as n eqn:Hn. revert s Hn.
  induction n as [n IH] using lt_wf_ind. intros s Hn.
  destruct s as [|c0 s1]; [by exists EmptyString|].
  cbn [Text.lstrip]. destruct (Ascii.is_space c0) eqn:H0.
  { destruct (IH (String.length s1)) with (s := s1) as (pre & Heq & Hpre);
      [subst n; cbn; lia|done|].
    exists (String c0 pre). cbn [Text.chars]. split.
    - change (String c0 pre +:+ Text.lstrip s1)
        with (String c0 (pre +:+ Text.lstrip s1)). by rewrite <-Heq.
    - constructor; [by left|done]. }
  destruct s1 as [|c1 s2]; [by exists EmptyString|].
  destruct (Text.space2 (N_of_ascii c0) (N_of_ascii c1)) eqn:H2.
  { apply space2_bytes in H2 as [Hc0 Hc1].
    destruct (IH (String.length s2)) with (s := s2) as (pre & Heq & Hpre);
      [subst n; cbn; lia|done|].
    exists (String c0 (String c1 pre)). cbn [Text.chars]. split.
    - change (String c0 (String c1 pre) +:+ Text.lstrip s2)
        with (String c0 (String c1 (pre +:+ Text.lstrip s2))). by rewrite <-Heq.
    - repeat (apply Forall_cons; split; [by right|]). done. }
  destruct s2 as [|c2 s3]; [by exists EmptyString|].
  destruct (Text.space3 (N_of_ascii c0) (N_of_ascii c1) (N_of_ascii c2)) eqn:H3.
  { apply space3_bytes in H3 as (Hc0 & Hc1 & Hc2).
    destruct (IH (String.length s3)) with (s := s3) as (pre & Heq & Hpre);
      [subst n; cbn; lia|done|].
    exists (String c0 (String c1 (String c2 pre))). cbn [Text.chars]. split.
    - change (String c0 (String c1 (String c2 pre)) +:+ Text.lstrip s3)
        with (String c0 (String c1 (String c2 (pre +:+ Text.lstrip s3)))).
      by rewrite <-Heq.
    - repeat (apply Forall_cons; split; [by right|]). done. }
  by exists EmptyString.
Qed.

Lemma chars_app (s t : string) :
  Text.chars (s +:+ t) = Text.chars s ++ Text.chars t.
Proof.
  induction s as [|c s IH]; [done|].
  change (String c s +:+ t) with (String c (s +:+ t)).
  cbn [Text.chars]. by rewrite IH.
Qed.

Lemma chars_lstrip_sub (s : string) (c : ascii) :
  c ∈ Text.chars (Text.lstrip s) → c ∈ Text.chars s.
Proof.
  destruct (lstrip_split s) as (pre & Heq & _). intros Hc.
  rewrite Heq, chars_app. apply elem_of_app. by right.
Qed.

Lemma chars_lstrip (s : string) (c : ascii) :
  c ∈ Text.chars s → Text.ascii_char c = true → Ascii.is_space c = false →
  c ∈ Text.chars (Text.lstrip s).
Proof.
  destruct (lstrip_split s) as (pre & Heq & Hpre). intros Hc Hascii Hsp.
  rewrite Heq, chars_app in Hc. apply elem_of_app in Hc as [Hc|Hc]; [|done].
  eapply Forall_forall in Hpre; [|exact Hc]. destruct Hpre; congruence.
Qed.

Lemma chars_rstrip_sub (s : string) (c : ascii) :
  c ∈ Text.chars (Text.rstrip s) → c ∈ Text.chars s.
Proof.
  induction s as [|c0 s IH]; [done|]. cbn [Text.rstrip].
  destruct (Text.blank (String c0 s)); [by intros ?%elem_of_nil|].
  cbn [Text.chars]. rewrite !elem_of_cons. intros [?|?]; [by left|right; auto].
Qed.

Lemma chars_rstrip (s : string) (c : ascii) :
  c ∈ Text.chars s → Text.ascii_char c = true → Ascii.is_space c = false →
  c ∈ Text.chars (Text.rstrip s).
Proof.
  intros Hc Hascii Hsp. induction s as [|c0 s IH]; [done|].
  cbn [Text.rstrip]. destruct (Text.blank (String c0 s)) eqn:Hblank.
  - unfold Text.blank in Hblank. apply bool_decide_eq_true in Hblank.
    pose proof (chars_lstrip _ c Hc Hascii Hsp) as Hin.
    rewrite Hblank in Hin. by apply elem_of_nil in Hin.
  - cbn [Text.chars] in *. apply elem_of_cons in Hc as [->|Hc]; [by left|].
    right. by apply IH.
Qed.

Lemma chars_strip_sub (s : string) (c : ascii) :
  c ∈ Text.chars (Text.strip s) → c ∈ Text.chars s.
Proof. intros ?%chars_rstrip_sub. by apply chars_lstrip_sub. Qed.

Lemma chars_strip (s : string) (c : ascii) :
  c ∈ Text.chars s → Text.ascii_char c = true → Ascii.is_space c = false →
  c ∈ Text.chars (Text.strip s).
Proof. intros. apply chars_rstrip; [|done..]. by apply chars_lstrip. Qed.

(** Text of ASCII characters none of which is a blank has nothing to
    trim. *)
Lemma strip_solid (s : string) :
  Forall (λ c, Text.ascii_char c = true ∧ Ascii.is_space c = false) (Text.chars s) →
  Text.strip s = s.
Proof.
  intros Hs. unfold Text.strip.
  assert (Text.lstrip s = s) as ->.
  { destruct s as [|c s]; [done|]. cbn [Text.chars] in Hs.
    apply Forall_cons in Hs as [[? ?] _]. by apply lstrip_head. }
  induction s as [|c s IH]; [done|]. cbn [Text.chars] in Hs.
  apply Forall_cons in Hs as [[Hc Hsp] Hs]. cbn [Text.rstrip].
  unfold Text.blank. rewrite (lstrip_head c s Hc Hsp).
  rewrite bool_decide_eq_false_2 by done. by rewrite IH.
Qed.

(** *** Digits *)

Lemma digit_char (c : ascii) (d : N) :
  Text.digit_value c = Some d →
  Text.ascii_char c = true ∧ Ascii.is_space c = false
  ∧ c ≠ "+"%char ∧ c ≠ "-"%char.
Proof.
  destruct c as [[] [] [] [] [] [] [] []]; intros Hd; try discriminate Hd;
    repeat split; done.
Qed.

Lemma digits_from_chars (s : string) (acc : N) (c : ascii) :
  c ∈ Text.chars s → Text.digit_value c = None → Text.digits_from acc s = None.
Proof.
  intros Hc Hd. revert acc. induction s as [|c0 s IH]; intros acc.
  { by apply elem_of_nil in Hc. }
  cbn [Text.chars] in Hc. cbn [Text.digits_from].
  apply elem_of_cons in Hc as [<-|Hc]; [by rewrite Hd|].
  destruct (Text.digit_value c0); [by apply IH|done].
Qed.

Lemma digits_chars (s : string) (c : ascii) :
  c ∈ Text.chars s → Text.digit_value c = None → Text.digits s = None.
Proof.
  intros Hc Hd. unfold Text.digits. destruct s; [done|].
  by eapply digits_from_chars.
Qed.

(** A run of digits consists of digits, and has one. *)
Lemma digits_Some (s : string) (n : N) :
  Text.digits s = Some n →
  s ≠ EmptyString ∧ Forall (λ c, is_Some (Text.digit_value c)) (Text.chars s).
Proof.
  intros Hn. split; [by destruct s|]. apply Forall_forall. intros c Hc.
  destruct (Text.digit_value c) eqn:Hd; [done|].
  by rewrite (digits_chars s c Hc Hd) in Hn.
Qed.

Lemma split_sign_chars (s : string) (c : ascii) :
  c ∈ Text.chars (Text.split_sign s).2 → c ∈ Text.chars s.
Proof.
  destruct s as [|c0 s]; [done|].
  assert ((Text.split_sign (String c0 s)).2 = s
          ∨ (Text.split_sign (String c0 s)).2 = String c0 s) as [-> | ->].
  { destruct c0 as [[] [] [] [] [] [] [] []]; auto. }
  - cbn [Text.chars]. by right.
  - done.
Qed.

Lemma chars_split_sign (s : string) (c : ascii) :
  c ∈ Text.chars s → c ≠ "+"%char → c ≠ "-"%char →
  c ∈ Text.chars (Text.split_sign s).2.
Proof.
  intros Hc Hplus Hminus. destruct s as [|c0 s]; [done|].
  cbn [Text.chars] in Hc.
  destruct (decide (c0 = "-"%char)) as [->|Hm].
  { cbn [Text.split_sign snd]. apply elem_of_cons in Hc as [->|Hc]; done. }
  destruct (decide (c0 = "+"%char)) as [->|Hp].
  { cbn [Text.split_sign snd]. apply elem_of_cons in Hc as [->|Hc]; done. }
  assert ((Text.split_sign (String c0 s)).2 = String c0 s) as Heq.
  { destruct c0 as [[] [] [] [] [] [] [] []]; done. }
  by rewrite Heq.
Qed.

(** *** The integer reader *)

(** A character that is neither a digit nor a sign makes the text no
    integer. *)
Lemma parse_int_char (s : string) (c : ascii) :
  c ∈ Text.chars s → Text.digit_value c = None →
  c ≠ "+"%char → c ≠ "-"%char → pydantic_core.parse_int s = None.
Proof.
  intros Hc Hd Hplus Hminus. unfold pydantic_core.parse_int.
  pose proof (chars_split_sign s c Hc Hplus Hminus) as Hbody.
  destruct (Text.split_sign s) as [neg body]. cbn [snd] in Hbody.
  by rewrite (digits_chars body c Hbody Hd).
Qed.

(** Text without a digit is no integer. *)
Lemma parse_int_no_digit (s : string) :
  (∀ c, c ∈ Text.chars s → Text.digit_value c = None) →
  pydantic_core.parse_int s = None.
Proof.
  intros Hnone. unfold pydantic_core.parse_int.
  pose proof (split_sign_chars s) as Hsub.
  destruct (Text.split_sign s) as [neg body]. cbn [snd] in Hsub.
  destruct body as [|c body]; [done|].
  rewrite (digits_chars (String c body) c); [done|by left|].
  apply Hnone, Hsub. by left.
Qed.

(** A run of digits is the integer it spells. *)
Lemma parse_int_digits (s : string) (n : N) :
  Text.digits s = Some n → pydantic_core.parse_int s = Some (Z.of_N n).
Proof.
  intros Hn. pose proof (digits_Some s n Hn) as [Hne Hall].
  destruct s as [|c s]; [done|]. cbn [Text.chars] in Hall.
  apply Forall_cons in Hall as [[d Hd] _].
  unfold pydantic_core.parse_int.
  assert (Text.split_sign (String c s) = (false, String c s)) as ->.
  { clear -Hd. destruct c as [[] [] [] [] [] [] [] []]; try discriminate Hd; done. }
  by rewrite Hn.
Qed.

Lemma str_as_int_digits (s : string) (n : N) :
  Text.digits s = Some n → pydantic_core.str_as_int s = Some (Z.of_N n).
Proof.
  intros Hn. unfold pydantic_core.str_as_int. rewrite strip_solid.
  - by rewrite (parse_int_digits s n Hn).
  - destruct (digits_Some s n Hn) as [_ Hall].
    eapply Forall_impl; [exact Hall|]. intros c [d Hd].
    by destruct (digit_char c d Hd) as (? & ? & _).
Qed.

Lemma filter_chars (p : ascii → bool) (s : string) (c : ascii) :
  c ∈ Text.chars (Text.filter p s) ↔ c ∈ Text.chars s ∧ p c = true.
Proof.
  induction s as [|c0 s IH]; cbn [Text.filter Text.chars].
  - rewrite elem_of_nil. split; [done|by intros [? _]].
  - destruct (p c0) eqn:Hp; cbn [Text.chars]; rewrite ?elem_of_cons, IH; split.
    + intros [->|[? ?]]; (split; [|done]); [by left|by right].
    + intros [[->|?] ?]; [by left|by right].
    + intros [? ?]. split; [by right|done].
    + intros [[->|?] ?]; [congruence|done].
Qed.

Lemma split_at_chars (sep : ascii) (s l r : string) :
  Text.split_at sep s = (l, Some r) →
  Text.chars s = Text.chars l ++ sep :: Text.chars r.
Proof.
  revert l. induction s as [|c s IH]; intros l; [done|].
  cbn [Text.split_at]. destruct (Ascii.eqb c sep) eqn:Hc.
  - apply Ascii.eqb_eq in Hc as ->. by intros [= <- <-].
  - destruct (Text.split_at sep s) as [l' r'] eqn:Hs.
    intros [= <- ->]. cbn [Text.chars app]. by rewrite (IH l').
Qed.

Lemma all_zeros_chars (s : string) (c : ascii) :
  pydantic_core.all_zeros s = true → c ∈ Text.chars s → c = "0"%char.
Proof.
  induction s as [|c0 s IH]; [by intros _ ?%elem_of_nil|].
  cbn [pydantic_core.all_zeros Text.chars].
  intros [H0%Ascii.eqb_eq Hs]%andb_true_iff [->|Hc]%elem_of_cons; auto.
Qed.

(** Cleaning an integer takes away only zeros, separators and the point,
    and adds nothing. *)
Lemma skip_zeros_chars (previous : ascii) (s r : string) :
  pydantic_core.skip_zeros previous s = Some r →
  (∀ c, c ∈ Text.chars r → c = previous ∨ c ∈ Text.chars s)
  ∧ (∀ c, c ∈ Text.chars s → c ≠ "0"%char → c ≠ "_"%char → c ∈ Text.chars r).
Proof.
  revert previous. induction s as [|c0 s IH]; intros previous.
  { intros [= <-]. split; [|by intros c ?%elem_of_nil].
    intros c [->|?%elem_of_nil]%elem_of_cons; [by left|done]. }
  cbn [pydantic_core.skip_zeros Text.chars].
  destruct (Ascii.eqb c0 "0" || pydantic_core.is_underscore c0) eqn:Hskip.
  { intros [Hsub Hkept]%IH. split.
    - intros c [->|Hc]%Hsub; right; [by left|by right].
    - intros c [->|Hc]%elem_of_cons Hzero Hsep; [|by apply Hkept].
      apply orb_true_iff in Hskip as [?%Ascii.eqb_eq|?%Ascii.eqb_eq]; done. }
  destruct (pydantic_core.nonzero_digit c0).
  { intros [= <-]. split; [by right|done]. }
  destruct (Ascii.eqb c0 ".") eqn:Hpoint; [|done].
  intros [= <-]. cbn [Text.chars]. split.
  - intros c [->|Hc]%elem_of_cons; [by left|by right].
  - intros c Hc _ _. by right.
Qed.

Lemma strip_leading_zeros_chars (s r : string) :
  pydantic_core.strip_leading_zeros s = Some r →
  (∀ c, c ∈ Text.chars r → c ∈ Text.chars s)
  ∧ (∀ c, c ∈ Text.chars s → c ≠ "0"%char → c ≠ "_"%char → c ∈ Text.chars r).
Proof.
  destruct s as [|c0 s]; [done|]. cbn [pydantic_core.strip_leading_zeros].
  destruct (Ascii.eqb c0 "0") eqn:Hzero.
  - apply Ascii.eqb_eq in Hzero as ->. intros [Hsub Hkept]%skip_zeros_chars.
    cbn [Text.chars]. split.
    + intros c [->|Hc]%Hsub; [by left|by right].
    + intros c [->|Hc]%elem_of_cons ? ?; [done|by apply Hkept].
  - destruct (pydantic_core.nonzero_digit c0 || Ascii.eqb c0 "-"); [|done].
    by intros [= <-].
Qed.

Lemma strip_decimal_zeros_chars (s : string) :
  (∀ c, c ∈ Text.chars (pydantic_core.strip_decimal_zeros s) → c ∈ Text.chars s)
  ∧ (∀ c, c ∈ Text.chars s → c ≠ "0"%char → c ≠ "."%char →
          c ∈ Text.chars (pydantic_core.strip_decimal_zeros s)).
Proof.
  unfold pydantic_core.strip_decimal_zeros.
  destruct (Text.split_at "." s) as [whole [decimals|]] eqn:Hsplit; [|done].
  destruct (pydantic_core.all_zeros decimals) eqn:Hzeros; [|done].
  rewrite (split_at_chars _ _ _ _ Hsplit). split.
  - intros c Hc. apply elem_of_app. by left.
  - intros c [Hc|[->|Hc]%elem_of_cons]%elem_of_app Hzero Hpoint; [done..|].
    by rewrite (all_zeros_chars decimals c Hzeros Hc) in Hzero.
Qed.

Lemma strip_underscores_chars (s r : string) :
  pydantic_core.strip_underscores s = Some r →
  (∀ c, c ∈ Text.chars r → c ∈ Text.chars s)
  ∧ (∀ c, c ∈ Text.chars s → c ≠ "_"%char → c ∈ Text.chars r).
Proof.
  unfold pydantic_core.strip_underscores.
  destruct (_ || _); [done|]. intros [= <-]. split.
  - by intros c [? _]%filter_chars.
  - intros c Hc Hsep. apply filter_chars. split; [done|].
    unfold pydantic_core.is_underscore. apply negb_true_iff.
    by apply Ascii.eqb_neq.
Qed.

Lemma clean_int_str_chars (s r : string) :
  pydantic_core.clean_int_str s = Some r →
  (∀ c, c ∈ Text.chars r → c ∈ Text.chars s)
  ∧ (∀ c, c ∈ Text.chars s →
          c ≠ "0"%char → c ≠ "_"%char → c ≠ "."%char → c ∈ Text.chars r).
Proof.
  unfold pydantic_core.clean_int_str.
  destruct (pydantic_core.strip_leading_zeros s) as [s1|] eqn:H1; [|done].
  cbn [mbind option_bind].
  destruct (strip_leading_zeros_chars s s1 H1) as [Hsub1 Hkept1].
  destruct (strip_decimal_zeros_chars s1) as [Hsub2 Hkept2].
  destruct (pydantic_core.strip_underscores (pydantic_core.strip_decimal_zeros s1))
    as [s3|] eqn:H3.
  - destruct (strip_underscores_chars _ _ H3) as [Hsub3 Hkept3].
    intros [= <-]. split; [auto|]. intros c Hc Hzero Hsep Hpoint. auto.
  - destruct (bool_decide _); [done|]. intros [= <-]. split; [auto|].
    intros c Hc Hzero Hsep Hpoint. auto.
Qed.

(** Text that is not a number is refused as an integer. *)
Lemma non_numeric_not_int (s : string) :
  non_numeric s → pydantic_core.str_as_int s = None.
Proof.
  intros [Hnone|(c & Hc & Hascii & Hnum)]; unfold pydantic_core.str_as_int.
  - assert (∀ c, c ∈ Text.chars (Text.strip s) → Text.digit_value c = None)
      as Hstrip.
    { intros c Hc. by apply Hnone, chars_strip_sub. }
    rewrite (parse_int_no_digit _ Hstrip).
    destruct (pydantic_core.clean_int_str (Text.strip s)) as [r|] eqn:Hclean;
      [|done].
    cbn [mbind option_bind]. apply parse_int_no_digit. intros c Hc.
    apply Hstrip. by apply (clean_int_str_chars _ _ Hclean).
  - unfold numeric_char in Hnum.
    apply orb_false_iff in Hnum as [Hnum Hsign].
    apply orb_false_iff in Hnum as [Hdigit Hspace].
    apply bool_decide_eq_false in Hdigit, Hsign.
    assert (Text.digit_value c = None) as Hd.
    { destruct (Text.digit_value c); [|done]. by destruct Hdigit. }
    assert (c ≠ "+"%char ∧ c ≠ "-"%char ∧ c ≠ "_"%char ∧ c ≠ "."%char
            ∧ c ≠ "0"%char) as (Hplus & Hminus & Hsep & Hpoint & Hzero).
    { repeat split; intros ->; first [by apply Hsign; set_solver|done]. }
    pose proof (chars_strip s c Hc Hascii Hspace) as Hin.
    rewrite (parse_int_char _ c Hin Hd Hplus Hminus).
    destruct (pydantic_core.clean_int_str (Text.strip s)) as [r|] eqn:Hclean;
      [|done].
    cbn [mbind option_bind]. apply (parse_int_char r c); [|done..].
    by apply (clean_int_str_chars _ _ Hclean).
Qed.

(** *** What the validators raise *)

(** The only exception a validator raises is that of a duration out of
    range. *)
Lemma validate_annotation_raises (t : annotation) (raw : string) (e : exception) :
  validate_annotation t raw = Raises e → e = OverflowError.
Proof.
  induction t as [| | | | |t IH|choices|]; cbn [validate_annotation]; try done.
  - unfold or_error. by destruct (pydantic_core.str_as_bool raw).
  - unfold or_error. by destruct (pydantic_core.str_as_int raw).
  - unfold or_error. by destruct (pydantic_core.str_as_float raw).
  - unfold or_error. by destruct (pydantic_core.str_as_timedelta raw).
  - by destruct (bool_decide (raw ∈ choices)).
  - unfold timedelta_from_ms. destruct (pydantic_core.str_as_int raw) as [n|]; [|done].
    unfold timedelta_new. destruct (timedelta_fits _); [done|]. by intros [= <-].
Qed.

Lemma field_raised_OverflowError (cls : pyclass) (data : gmap string string)
    (e : exception) :
  e ∈ field_raised cls data → e = OverflowError.
Proof.
  intros (f & _ & Hout)%list_elem_of_omap.
  unfold validate_model_field, validate_entry in Hout.
  destruct (first_present (lookup_keys cls f) data) as [[k raw]|]; [|done].
  destruct (validate_field f raw) as [v|ty|e'] eqn:Hval; simplify_eq/=.
  by eapply validate_annotation_raises.
Qed.

(** ** Construction from the environment *)

Section construction.
Context (cls : pyclass) (Hwf : well_keyed cls).
Context (env_vars : gmap string string).

(** The field is validated on the entry that wins in the environment. *)
Lemma env_field_resolved f k raw :
  f ∈ model_fields cls → get_field_value cls f env_vars = Some (k, raw) →
  validate_model_field cls f (settings_build_values cls ∅ env_vars)
  = validate_entry f k raw.
Proof.
  intros Hf Hwin. unfold validate_model_field.
  by rewrite (lookup_winner cls env_vars f k raw).
Qed.

(** ... and the instance, when there is one, holds the validated value. *)
Lemma env_field_instance f k raw attrs :
  f ∈ model_fields cls → get_field_value cls f env_vars = Some (k, raw) →
  BaseSettings_init cls ∅ env_vars = inr attrs →
  ∃ v, validate_field f raw = Returns v ∧ attrs !! fld_name f = Some v.
Proof.
  intros Hf Hwin Hinit.
  destruct (valid_field_lookup cls _ attrs f (well_keyed_names cls Hwf) Hinit Hf)
    as (k' & v & Hout & Hattr).
  rewrite (env_field_resolved f k raw) in Hout by done.
  unfold validate_entry in Hout.
  destruct (validate_field f raw) as [v'|ty|e] eqn:Hval; [|done..].
  exists v'. split; [done|]. by simplify_eq.
Qed.

(** A value that fails validation makes the construction fail: a
    validator raised the error of a duration out of range, or the
    validation error reports the failure. *)
Lemma env_field_fails f k raw ty :
  f ∈ model_fields cls → get_field_value cls f env_vars = Some (k, raw) →
  validate_field f raw = Fails ty →
  ∃ e, BaseSettings_init cls ∅ env_vars = inl e
       ∧ (e = OverflowError
          ∨ ∃ errors, e = ValidationError (cls_name cls) errors
                      ∧ LineError k ty (before f raw) ∈ errors).
Proof.
  intros Hf Hwin Hval.
  destruct (invalid_field_raises cls (settings_build_values cls ∅ env_vars) f k
              (LineError k ty (before f raw)) Hf) as (e & Hinit & He).
  { rewrite (env_field_resolved f k raw) by done.
    unfold validate_entry. by rewrite Hval. }
  exists e. split; [done|]. destruct He as [He|He]; [left|by right].
  by eapply field_raised_OverflowError.
Qed.
End construction.

Section absent.
Context (cls : pyclass) (Hwf : well_keyed cls).
Context (init_kwargs env_vars : gmap string string) (f : field).
Context (Hf : f ∈ model_fields cls).
Context (Hnone : ∀ k, k ∈ field_keys f →
                   init_kwargs !! k = None ∧ env_vars !! k = None).

(** A field that the input does not mention takes its default. *)
Lemma absent_field_default :
  validate_model_field cls f (settings_build_values cls init_kwargs env_vars)
  = Valid None (fld_default f).
Proof.
  unfold validate_model_field. by rewrite lookup_absent.
Qed.

Lemma absent_field_instance attrs :
  BaseSettings_init cls init_kwargs env_vars = inr attrs →
  attrs !! fld_name f = Some (fld_default f).
Proof.
  intros Hinit.
  destruct (valid_field_lookup cls _ attrs f (well_keyed_names cls Hwf) Hinit Hf)
    as (k' & v & Hout & Hattr).
  rewrite absent_field_default in Hout. by simplify_eq.
Qed.
End absent.

(** The first alias wins in the environment whenever it is defined. *)
Lemma first_alias_wins (cls : pyclass) (f : field) (first : string)
    (later : list string) (env_vars : gmap string string) (raw : string) :
  fld_aliases f = first :: later → env_vars !! first = Some raw →
  get_field_value cls f env_vars = Some (first, raw).
Proof.
  intros Hal Hfirst. unfold get_field_value. rewrite env_names_lookup_keys.
  unfold lookup_keys. rewrite Hal.
  destruct (populate_by_name cls); by apply first_present_head.
Qed.


Lemma first_present_empty (ks : list string) : first_present ks ∅ = None.
Proof. apply first_present_None, Forall_forall. intros k _. apply lookup_empty. Qed.

(** Without input every field takes its default. *)
Lemma model_validate_empty (cls : pyclass) :
  model_validate cls ∅ = inr (class_defaults cls).
Proof.
  apply model_validate_inr.
  unfold field_raised, field_errors, extra_errors, field_values.
  rewrite map_to_list_empty. split; [|split; [|split; [done|]]].
  - induction (model_fields cls) as [|f fs IH]; [done|].
    cbn [omap list_omap]. unfold validate_model_field at 1.
    by rewrite first_present_empty.
  - induction (model_fields cls) as [|f fs IH]; [done|].
    cbn [omap list_omap]. unfold validate_model_field at 1.
    by rewrite first_present_empty.
  - unfold class_defaults. f_equal.
    induction (model_fields cls) as [|f fs IH]; [done|].
    cbn [omap list_omap]. rewrite fmap_cons. unfold validate_model_field at 1.
    rewrite first_present_empty. cbn [outcome_value]. by rewrite IH.
Qed.

Lemma env_source_none (cls : pyclass) (env_vars : gmap string string) :
  (∀ f, f ∈ model_fields cls → get_field_value cls f env_vars = None) →
  EnvSettingsSource cls env_vars = ∅.
Proof.
  intros Hnone. apply map_eq. intros k. rewrite lookup_empty.
  destruct (EnvSettingsSource cls env_vars !! k) as [v|] eqn:Hk; [|done].
  apply env_source_lookup in Hk as (f & Hf & Hwin).
  rewrite Hnone in Hwin by done. done.
Qed.

(** An environment that mentions no field yields the instance of defaults. *)
Lemma init_unset (cls : pyclass) (env_vars : gmap string string) :
  (∀ f k, f ∈ model_fields cls → k ∈ field_keys f → env_vars !! k = None) →
  BaseSettings_init cls ∅ env_vars = inr (class_defaults cls).
Proof.
  intros Hnone. unfold BaseSettings_init.
  rewrite settings_build_values_env, env_source_none.
  - apply model_validate_empty.
  - intros f Hf. apply first_present_None, Forall_forall. intros k Hk.
    apply (Hnone f k Hf). by eapply env_names_keys.
Qed.

(** An environment that defines one name of one field enters just that. *)
Lemma env_source_singleton (cls : pyclass) (f : field) (a raw : string) :
  f ∈ model_fields cls → a ∈ env_names cls f →
  EnvSettingsSource cls {[a := raw]} = {[a := raw]}.
Proof.
  intros Hf Ha. apply map_eq. intros k. apply option_eq. intros v.
  rewrite env_source_lookup, lookup_singleton_Some. split.
  - intros (g & _ & Hwin). unfold get_field_value in Hwin.
    rewrite first_present_singleton in Hwin.
    destruct (decide (a ∈ env_names cls g)); by simplify_eq.
  - intros [<- <-]. exists f. split; [done|]. unfold get_field_value.
    rewrite first_present_singleton. by rewrite decide_True.
Qed.

Lemma Configuration_init_empty :
  BaseSettings_init Configuration ∅ ∅ = inr Configuration_defaults.
Proof.
  unfold BaseSettings_init. rewrite settings_build_values_env, env_source_empty.
  apply model_validate_empty.
Qed.

(** ** What a field depends on *)

Lemma first_present_ext (ks : list string) (m m' : gmap string string) :
  (∀ k, k ∈ ks → m !! k = m' !! k) → first_present ks m = first_present ks m'.
Proof.
  induction ks as [|k0 ks IH]; intros Hagree; [done|].
  cbn [first_present]. rewrite <-(Hagree k0) by by left.
  destruct (m !! k0); [done|]. apply IH. intros k Hk. apply Hagree. by right.
Qed.


Lemma get_field_value_ext (cls : pyclass) (f : field)
    (env_vars env_vars' : gmap string string) :
  (∀ k, k ∈ field_keys f → env_vars !! k = env_vars' !! k) →
  get_field_value cls f env_vars = get_field_value cls f env_vars'.
Proof.
  intros Hagree. apply first_present_ext. intros k Hk.
  apply Hagree. by eapply env_names_keys.
Qed.

Lemma class_keys_field (cls : pyclass) (f : field) (k : string) :
  f ∈ model_fields cls → k ∈ field_keys f → k ∈ class_keys cls.
Proof.
  intros Hf Hk. apply list_elem_of_join. exists (field_keys f).
  split; [done|]. by apply list_elem_of_fmap_2.
Qed.

(** The outcome of a field is decided by the entry that wins for it in the
    environment. *)
Lemma env_field_outcome (cls : pyclass) (env_vars : gmap string string) (f : field) :
  f ∈ model_fields cls →
  validate_model_field cls f (settings_build_values cls ∅ env_vars)
  = match get_field_value cls f env_vars with
    | Some (k, raw) => validate_entry f k raw
    | None => Valid None (fld_default f)
    end.
Proof.
  intros Hf. destruct (get_field_value cls f env_vars) as [[k raw]|] eqn:Hwin.
  - by apply env_field_resolved.
  - unfold validate_model_field.
    assert (first_present (lookup_keys cls f)
              (settings_build_values cls ∅ env_vars) = None) as ->; [|done].
    apply first_present_None, Forall_forall. intros k Hk.
    apply settings_build_values_None; [apply lookup_empty|].
    apply first_present_None in Hwin. rewrite env_names_lookup_keys in Hwin.
    by eapply Forall_forall in Hwin.
Qed.

(** The source is decided by the entries that win for the fields. *)
Lemma env_source_winners (cls : pyclass) (env_vars env_vars' : gmap string string) :
  (∀ f, f ∈ model_fields cls →
        get_field_value cls f env_vars = get_field_value cls f env_vars') →
  EnvSettingsSource cls env_vars = EnvSettingsSource cls env_vars'.
Proof.
  intros Hagree. apply map_eq. intros k. apply option_eq. intros v.
  rewrite !env_source_lookup. split; intros (f & Hf & Hwin); exists f;
    (split; [done|]); by rewrite <-Hwin, Hagree.
Qed.

Lemma env_source_ext (cls : pyclass) (env_vars env_vars' : gmap string string) :
  (∀ k, k ∈ class_keys cls → env_vars !! k = env_vars' !! k) →
  EnvSettingsSource cls env_vars = EnvSettingsSource cls env_vars'.
Proof.
  intros Hagree. apply env_source_winners. intros f Hf.
  apply get_field_value_ext. intros k Hk. apply Hagree. by eapply class_keys_field.
Qed.

Lemma init_ext (cls : pyclass) (init_kwargs env_vars env_vars' : gmap string string) :
  (∀ k, k ∈ class_keys cls → env_vars !! k = env_vars' !! k) →
  BaseSettings_init cls init_kwargs env_vars
  = BaseSettings_init cls init_kwargs env_vars'.
Proof.
  intros Hagree. unfold BaseSettings_init, settings_build_values.
  by rewrite (env_source_ext cls env_vars env_vars' Hagree).
Qed.

Lemma field_ext (cls : pyclass) (f : field)
    (env_vars env_vars' : gmap string string) :
  well_keyed cls → f ∈ model_fields cls →
  (∀ k, k ∈ field_keys f → env_vars !! k = env_vars' !! k) →
  validate_model_field cls f (settings_build_values cls ∅ env_vars)
  = validate_model_field cls f (settings_build_values cls ∅ env_vars')
  ∧ ∀ attrs attrs',
      BaseSettings_init cls ∅ env_vars = inr attrs →
      BaseSettings_init cls ∅ env_vars' = inr attrs' →
      attrs !! fld_name f = attrs' !! fld_name f.
Proof.
  intros Hwf Hf Hagree.
  assert (validate_model_field cls f (settings_build_values cls ∅ env_vars)
          = validate_model_field cls f (settings_build_values cls ∅ env_vars'))
    as Heq.
  { rewrite !env_field_outcome by done.
    by rewrite (get_field_value_ext cls f env_vars env_vars' Hagree). }
  split; [exact Heq|]. intros attrs attrs' Hinit Hinit'.
  destruct (valid_field_lookup cls _ attrs f (well_keyed_names cls Hwf) Hinit Hf)
    as (k & v & Hout & ->).
  destruct (valid_field_lookup cls _ attrs' f (well_keyed_names cls Hwf) Hinit' Hf)
    as (k' & v' & Hout' & ->).
  congruence.
Qed.

Lemma field_keys_NoDup (cls : pyclass) (f : field) :
  well_keyed cls → f ∈ model_fields cls → NoDup (field_keys f).
Proof.
  intros Hwf Hf. unfold well_keyed in Hwf.
  apply list_elem_of_split in Hf as (l1 & l2 & Heq). rewrite Heq in Hwf.
  rewrite fmap_app, fmap_cons, join_app in Hwf. cbn [mjoin list_join] in Hwf.
  apply NoDup_app in Hwf as (_ & _ & Hwf).
  by apply NoDup_app in Hwf as (? & _ & _).
Qed.

(** ** Construction from one source name *)

(** An environment that defines one name of one field yields the instance
    of defaults with that field set. *)
Lemma env_single_instance (cls : pyclass) (f : field) (a raw : string) (v : value) :
  well_keyed cls → f ∈ model_fields cls → a ∈ env_names cls f →
  validate_field f raw = Returns v →
  BaseSettings_init cls ∅ {[a := raw]}
  = inr (<[fld_name f := v]> (class_defaults cls)).
Proof.
  intros Hwf Hf Ha Hv. unfold BaseSettings_init.
  rewrite settings_build_values_env, (env_source_singleton _ f) by done.
  apply single_key_instance; [done..| |done]. by rewrite <-env_names_lookup_keys.
Qed.

Lemma winner_env_name (cls : pyclass) (f : field)
    (env_vars : gmap string string) (a raw : string) :
  get_field_value cls f env_vars = Some (a, raw) → a ∈ env_names cls f.
Proof. by intros [? _]%first_present_elem. Qed.

Lemma Configuration_env_names (f : field) :
  env_names Configuration f = fld_aliases f ++ [fld_name f].
Proof.
  unfold env_names. cbn [populate_by_name Configuration].
  by rewrite orb_true_r.
Qed.

(** The raw text of a text field is its value. *)
Lemma validate_text_field (f : field) (raw : string) :
  text_field f → validate_field f raw = Returns (VStr raw).
Proof.
  intros [Hann Hbefore]. unfold validate_field, before. rewrite Hbefore.
  by destruct Hann as [-> | ->].
Qed.

(** ** Precedence among the source names *)

(** C1, as it stands, fails when the input mapping is the keyword
    arguments of the constructor: validation takes the first name and then
    finds the later name unused, which a settings class forbids.  The
    construction fails and the field resolves to nothing. *)
Lemma later_name_as_keyword_is_refused :
  let input : gmap string string :=
    {[ "actor_default_dataset_id" := "first";
       "apify_default_dataset_id" := "second" ]} in
  BaseSettings_init Configuration input ∅
  = inl (ValidationError "Configuration"
           [LineError "apify_default_dataset_id" "extra_forbidden" "second"])
  ∧ attribute (BaseSettings_init Configuration input ∅) "default_dataset_id" = None.
Proof. split; vm_compute; reflexivity. Qed.

(** C1, amended.  For every field of [Configuration], when the environment
    defines the first of the field's source names, that name supplies the
    field and the later names of the field are ignored: an environment
    that differs only in them gives the same result, whatever the keyword
    arguments; the value of the field in the instance is the value that
    the first name's text gives when nothing else is defined, and for a
    text field it is that text itself. *)
Theorem first_source_name_wins (f : field) (first : string) (later : list string)
    (init_kwargs env_vars env_vars' : gmap string string) (raw : string) :
  f ∈ Configuration_fields →
  fld_aliases f = first :: later →
  env_vars !! first = Some raw →
  (∀ k, k ∉ later → k ≠ fld_name f → env_vars' !! k = env_vars !! k) →
  get_field_value Configuration f env_vars = Some (first, raw)
  ∧ BaseSettings_init Configuration init_kwargs env_vars'
    = BaseSettings_init Configuration init_kwargs env_vars
  ∧ (∀ attrs, BaseSettings_init Configuration ∅ env_vars = inr attrs →
       ∃ attrs0,
         BaseSettings_init Configuration ∅ {[first := raw]} = inr attrs0
         ∧ attrs !! fld_name f = attrs0 !! fld_name f)
  ∧ (text_field f →
     ∀ attrs, BaseSettings_init Configuration ∅ env_vars = inr attrs →
       attrs !! fld_name f = Some (VStr raw)).
Proof.
  intros Hf Hal Hfirst Hagree.
  pose proof (first_alias_wins Configuration f first later env_vars raw Hal Hfirst)
    as Hwin.
  pose proof (field_keys_NoDup Configuration f Configuration_well_keyed Hf) as Hnd.
  unfold field_keys in Hnd. rewrite Hal in Hnd. cbn [app] in Hnd.
  apply NoDup_cons in Hnd as [Hnot _].
  assert (env_vars' !! first = Some raw) as Hfirst'.
  { rewrite Hagree; [done| |].
    - intros Hin. apply Hnot, elem_of_app. by left.
    - intros ->. apply Hnot, elem_of_app. right. by left. }
  split; [exact Hwin|]. split.
  { unfold BaseSettings_init, settings_build_values. f_equal. f_equal.
    apply env_source_winners. intros g Hg.
    destruct (decide (fld_name g = fld_name f)) as [Hname|Hname].
    - assert (g = f) as ->.
      { apply (well_keyed_same Configuration Configuration_well_keyed g f
                 (fld_name g)); [done..| |].
        - apply elem_of_app. right. by left.
        - rewrite Hname. apply elem_of_app. right. by left. }
      rewrite Hwin. by apply (first_alias_wins Configuration f first later).
    - assert (g ≠ f) as Hne by by intros ->.
      apply get_field_value_ext. intros k Hk. apply Hagree.
      + intros Hin. apply Hne.
        apply (well_keyed_same Configuration Configuration_well_keyed g f k);
          [done..|]. unfold field_keys. rewrite Hal. cbn [app]. right.
        apply elem_of_app. by left.
      + intros ->. apply Hne.
        apply (well_keyed_same Configuration Configuration_well_keyed g f
                 (fld_name f)); [done..|].
        apply elem_of_app. right. by left. }
  split.
  - intros attrs Hinit.
    destruct (env_field_instance Configuration Configuration_well_keyed env_vars
                f first raw attrs Hf Hwin Hinit) as (v & Hv & Hattr).
    exists (<[fld_name f := v]> Configuration_defaults). split.
    + apply (env_single_instance Configuration f first raw v
               Configuration_well_keyed Hf); [|done].
      by eapply winner_env_name.
    + by rewrite Hattr, lookup_insert_eq.
  - intros Htext attrs Hinit.
    destruct (env_field_instance Configuration Configuration_well_keyed env_vars
                f first raw attrs Hf Hwin Hinit) as (v & Hv & Hattr).
    rewrite (validate_text_field f raw Htext) in Hv. by simplify_eq.
Qed.

Lemma first_source_name_wins_witness :
  let env_vars : gmap string string :=
    {[ "actor_default_dataset_id" := "first";
       "apify_default_dataset_id" := "second";
       "crawlee_default_dataset_id" := "third" ]} in
  get_field_value Configuration default_dataset_id env_vars
  = Some ("actor_default_dataset_id", "first")
  ∧ BaseSettings_init Configuration ∅ {["actor_default_dataset_id" := "first"]}
    = BaseSettings_init Configuration ∅ env_vars
  ∧ attribute (BaseSettings_init Configuration ∅ env_vars) "default_dataset_id"
    = Some (VStr "first").
Proof.
  intros env_vars.
  destruct (first_source_name_wins default_dataset_id "actor_default_dataset_id"
              ["apify_default_dataset_id"; "crawlee_default_dataset_id"]
              ∅ env_vars {["actor_default_dataset_id" := "first"]} "first")
    as (Hwin & Hsame & _).
  - unfold Configuration_fields. do 5 apply list_elem_of_further.
    apply list_elem_of_here.
  - reflexivity.
  - reflexivity.
  - intros k Hlater Hname. unfold env_vars.
    destruct (decide (k = "actor_default_dataset_id")) as [->|Hactor];
      [reflexivity|].
    rewrite lookup_singleton_ne by done. symmetry.
    rewrite lookup_insert_ne by done.
    rewrite lookup_insert_ne.
    2: { intros <-. apply Hlater. apply list_elem_of_here. }
    rewrite lookup_singleton_ne; [done|].
    intros <-. apply Hlater. apply list_elem_of_further, list_elem_of_here.
  - split; [exact Hwin|]. split; [exact Hsame|]. vm_compute. reflexivity.
Defined.

(** ** Defaults *)

(** Whatever the input, an instance has a value for every field. *)
Lemma init_total (cls : pyclass) (init_kwargs env_vars : gmap string string)
    (attrs : gmap string value) (g : field) :
  BaseSettings_init cls init_kwargs env_vars = inr attrs →
  g ∈ model_fields cls → is_Some (attrs !! fld_name g).
Proof. apply instance_total. Qed.

(** C2, as it stands, fails: the class populates by name, so a field is
    also set by input under the field's own name, which is none of its
    source names.  Given [storage_dir] the storage directory is the one
    given, not the default. *)
Lemma field_given_by_name_is_not_default :
  let input : gmap string string := {["storage_dir" := "elsewhere"]} in
  (∀ a, a ∈ fld_aliases storage_dir → input !! a = None)
  ∧ attribute (BaseSettings_init Configuration input ∅) "storage_dir"
    = Some (VStr "elsewhere")
  ∧ fld_default storage_dir = VStr "./storage"
  ∧ VStr "elsewhere" ≠ VStr "./storage".
Proof.
  intros input. split.
  - intros a Ha. cbn [storage_dir fld_aliases AliasChoices] in Ha.
    apply elem_of_cons in Ha as [->|Ha]; [reflexivity|].
    apply elem_of_cons in Ha as [->|Ha]; [reflexivity|].
    by apply elem_of_nil in Ha.
  - split; [vm_compute; reflexivity|]. split; [reflexivity|discriminate].
Qed.

(** C2, amended.  For every field of [Configuration], when the input
    (keyword arguments and environment) holds none of the field's source
    names and not the field's own name, the field takes exactly its
    declared default; with no field mentioned at all the construction
    returns the instance of the defaults (log level INFO, purge on start, a
    state interval of 60000 ms, storage under "./storage", no memory
    limit); and whatever the input, an instance has a value for every
    field. *)
Theorem defaults_without_any_key (f : field)
    (init_kwargs env_vars : gmap string string) :
  f ∈ Configuration_fields →
  (∀ k, k ∈ fld_aliases f ++ [fld_name f] →
     init_kwargs !! k = None ∧ env_vars !! k = None) →
  validate_model_field Configuration f
    (settings_build_values Configuration init_kwargs env_vars)
  = Valid None (fld_default f)
  ∧ (∀ attrs, BaseSettings_init Configuration init_kwargs env_vars = inr attrs →
       attrs !! fld_name f = Some (fld_default f))
  ∧ ((∀ g k, g ∈ Configuration_fields → k ∈ fld_aliases g ++ [fld_name g] →
        env_vars !! k = None) →
     BaseSettings_init Configuration ∅ env_vars = inr Configuration_defaults)
  ∧ Configuration_defaults !! "log_level" = Some (VStr "INFO")
  ∧ Configuration_defaults !! "purge_on_start" = Some (VBool true)
  ∧ Configuration_defaults !! "persist_state_interval"
    = Some (VTimedelta (timedelta_of_milliseconds 60000))
  ∧ Configuration_defaults !! "storage_dir" = Some (VStr "./storage")
  ∧ Configuration_defaults !! "memory_mbytes" = Some VNone
  ∧ (∀ init_kwargs' env_vars' attrs g,
       BaseSettings_init Configuration init_kwargs' env_vars' = inr attrs →
       g ∈ Configuration_fields → is_Some (attrs !! fld_name g)).
Proof.
  intros Hf Hnone.
  split; [by apply absent_field_default|]. split.
  { exact (absent_field_instance Configuration Configuration_well_keyed
             init_kwargs env_vars f Hf Hnone). }
  split; [exact (init_unset Configuration env_vars)|].
  repeat (split; [vm_compute; reflexivity|]).
  exact (init_total Configuration).
Qed.

Lemma defaults_without_any_key_witness :
  let env_vars : gmap string string := {[ "crawlee_log_level" := "debug" ]} in
  let init_kwargs : gmap string string := {[ "headless" := "no" ]} in
  attribute (BaseSettings_init Configuration init_kwargs env_vars) "storage_dir"
  = Some (VStr "./storage")
  ∧ validate_model_field Configuration storage_dir
      (settings_build_values Configuration init_kwargs env_vars)
    = Valid None (VStr "./storage").
Proof.
  intros env_vars init_kwargs. split; [vm_compute; reflexivity|].
  apply (defaults_without_any_key storage_dir init_kwargs env_vars).
  - unfold Configuration_fields. do 16 apply list_elem_of_further.
    apply list_elem_of_here.
  - intros k Hk. cbn [storage_dir fld_aliases fld_name AliasChoices app] in Hk.
    apply elem_of_cons in Hk as [->|Hk]; [split; reflexivity|].
    apply elem_of_cons in Hk as [->|Hk]; [split; reflexivity|].
    apply elem_of_cons in Hk as [->|Hk]; [split; reflexivity|].
    by apply elem_of_nil in Hk.
Defined.

(** ** Input by field name *)




(** A text given for one field under one of the field's keys, on top of
    entries that hold no key of the field. *)
Section keyed_input.
Context (cls : pyclass) (Hwf : well_keyed cls).
Context (f : field) (Hf : f ∈ model_fields cls) (raw : string).
Context (src : gmap string string).
Context (Hsrc : ∀ k, k ∈ field_keys f → src !! k = None).

Local Abbreviation input := (λ k : string, ({[k := raw]} : gmap string string) ∪ src).




End keyed_input.



(** Next to an alias that the environment defines, the field's name as a
    keyword argument is not taken for the field: validation finds the
    alias and refuses the name as extra input. *)
Lemma name_next_to_alias_is_refused :
  BaseSettings_init Configuration {["storage_dir" := "here"]}
    {["apify_local_storage_dir" := "there"]}
  = inl (ValidationError "Configuration"
           [LineError "storage_dir" "extra_forbidden" "here"]).
Proof. vm_compute. reflexivity. Qed.



(** ** The log level *)

(** The log level is put in upper case, then looked up among the levels. *)
Lemma validate_log_level (raw : string) :
  validate_field log_level raw
  = if bool_decide (Text.upper raw ∈ log_levels) then Returns (VStr (Text.upper raw))
    else Fails "literal_error".
Proof. reflexivity. Qed.

Lemma validate_log_level_member (raw m : string) :
  m ∈ log_levels → same_ignoring_case raw m →
  validate_field log_level raw = Returns (VStr m).
Proof.
  intros Hm Hcase. rewrite validate_log_level.
  destruct (log_levels_upper m Hm) as [Hascii Hupper].
  rewrite (same_ignoring_case_upper raw m Hascii Hcase), Hupper.
  by rewrite bool_decide_eq_true_2.
Qed.

Lemma log_level_field : log_level ∈ model_fields Configuration.
Proof.
  cbn [model_fields Configuration]. unfold Configuration_fields.
  do 4 apply list_elem_of_further. apply list_elem_of_here.
Qed.

(** C6. The raw text of the log level is put in upper case before it is
    looked up among DEBUG, INFO, WARNING, ERROR and CRITICAL: when the
    winning source name supplies any spelling of a level, whatever the case
    of its letters, the field is that level; "debug", "Debug" and "DEBUG"
    all give DEBUG. *)
Theorem log_level_any_case (env_vars : gmap string string) (a raw m : string) :
  get_field_value Configuration log_level env_vars = Some (a, raw) →
  m ∈ log_levels → same_ignoring_case raw m →
  before log_level raw = Text.upper raw
  ∧ validate_model_field Configuration log_level
      (settings_build_values Configuration ∅ env_vars)
    = Valid (Some a) (VStr m)
  ∧ (∀ attrs, BaseSettings_init Configuration ∅ env_vars = inr attrs →
       attrs !! "log_level" = Some (VStr m))
  ∧ BaseSettings_init Configuration ∅ {[a := raw]}
    = inr (<["log_level" := VStr m]> Configuration_defaults)
  ∧ attribute (BaseSettings_init Configuration ∅ {["crawlee_log_level" := "debug"]})
      "log_level" = Some (VStr "DEBUG")
  ∧ attribute (BaseSettings_init Configuration ∅ {["crawlee_log_level" := "Debug"]})
      "log_level" = Some (VStr "DEBUG")
  ∧ attribute (BaseSettings_init Configuration ∅ {["crawlee_log_level" := "DEBUG"]})
      "log_level" = Some (VStr "DEBUG").
Proof.
  intros Hwin Hm Hcase.
  pose proof (validate_log_level_member raw m Hm Hcase) as Hval.
  split; [reflexivity|]. split.
  { rewrite (env_field_resolved Configuration env_vars log_level a raw
               log_level_field Hwin).
    unfold validate_entry. by rewrite Hval. }
  split.
  { intros attrs Hinit.
    destruct (env_field_instance Configuration Configuration_well_keyed env_vars
                log_level a raw attrs log_level_field Hwin Hinit)
      as (v & Hv & Hattr).
    rewrite Hval in Hv. by simplify_eq. }
  split.
  { apply (env_single_instance Configuration log_level a raw (VStr m)
             Configuration_well_keyed log_level_field); [|done].
    by eapply winner_env_name. }
  repeat split; vm_compute; reflexivity.
Qed.

Lemma log_level_any_case_witness :
  BaseSettings_init Configuration ∅ {["apify_log_level" := "wArNiNg"]}
  = inr (<["log_level" := VStr "WARNING"]> Configuration_defaults).
Proof.
  apply (log_level_any_case {["apify_log_level" := "wArNiNg"]}
           "apify_log_level" "wArNiNg" "WARNING").
  - reflexivity.
  - unfold log_levels. do 2 apply list_elem_of_further. apply list_elem_of_here.
  - reflexivity.
Defined.

(** ** Durations in milliseconds *)

Lemma digit_value_bound (c : ascii) (d : N) :
  Text.digit_value c = Some d → (d ≤ 9)%N.
Proof.
  unfold Text.digit_value.
  destruct ((48 <=? N_of_ascii c) && (N_of_ascii c <=? 57))%N eqn:Hc; [|done].
  apply andb_true_iff in Hc as [_ Hc%N.leb_le]. intros [= <-]. lia.
Qed.

Lemma digits_from_bound (s : string) (acc n : N) :
  Text.digits_from acc s = Some n →
  (n < (acc + 1) * 10 ^ N.of_nat (String.length s))%N.
Proof.
  revert acc. induction s as [|c s IH]; intros acc.
  - intros [= <-]. cbn. lia.
  - cbn [Text.digits_from String.length].
    destruct (Text.digit_value c) as [d|] eqn:Hd; [|done].
    intros Hn%IH. apply digit_value_bound in Hd.
    rewrite Nat2N.inj_succ, N.pow_succ_r'. nia.
Qed.

(** A run of at most fifteen digits spells a count below 10 ^ 15. *)
Lemma digits_bound (s : string) (n : N) :
  Text.digits s = Some n → (String.length s ≤ 15)%nat → (n < 10 ^ 15)%N.
Proof.
  intros Hn Hlen.
  assert (Text.digits_from 0 s = Some n) as Hfrom by by destruct s.
  apply digits_from_bound in Hfrom.
  assert (10 ^ N.of_nat (String.length s) ≤ 10 ^ 15)%N; [|lia].
  apply N.pow_le_mono_r; lia.
Qed.

(** A count below 10 ^ 15 milliseconds is within the range of a
    [timedelta]. *)
Lemma timedelta_new_small (n : N) :
  (n < 10 ^ 15)%N →
  timedelta_new (Z.of_N n) = inr (timedelta_of_milliseconds (Z.of_N n)).
Proof.
  intros Hn. unfold timedelta_new, timedelta_fits.
  assert ((10 ^ 15)%N = 1000000000000000%N) as Hpow by reflexivity.
  rewrite Hpow in Hn.
  assert ((microseconds timedelta_min
           <=? microseconds (timedelta_of_milliseconds (Z.of_N n))) = true) as ->.
  { apply Z.leb_le. cbn [microseconds timedelta_min timedelta_of_milliseconds]. lia. }
  assert ((microseconds (timedelta_of_milliseconds (Z.of_N n))
           <=? microseconds timedelta_max) = true) as ->.
  { apply Z.leb_le. cbn [microseconds timedelta_max timedelta_of_milliseconds]. lia. }
  done.
Qed.

Lemma validate_timedelta_ms (f : field) (raw : string) (n : N) :
  f = persist_state_interval ∨ f = system_info_interval →
  Text.digits raw = Some n → (String.length raw ≤ 15)%nat →
  validate_field f raw
  = Returns (VTimedelta (timedelta_of_milliseconds (Z.of_N n))).
Proof.
  intros Hf Hraw Hlen.
  assert (validate_field f raw = timedelta_from_ms raw) as ->.
  { by destruct Hf as [-> | ->]. }
  unfold timedelta_from_ms. rewrite (str_as_int_digits raw n Hraw).
  by rewrite (timedelta_new_small n (digits_bound raw n Hraw Hlen)).
Qed.

Lemma duration_field (f : field) :
  f = persist_state_interval ∨ f = system_info_interval →
  f ∈ model_fields Configuration.
Proof.
  cbn [model_fields Configuration]. unfold Configuration_fields.
  intros [->| ->].
  - do 11 apply list_elem_of_further. apply list_elem_of_here.
  - do 12 apply list_elem_of_further. apply list_elem_of_here.
Qed.

(** A count beyond the range of a duration, written in digits, makes the
    construction raise the [OverflowError] of [timedelta], whatever else
    the environment holds: the error of the validator reaches the caller as
    it is. *)
Lemma duration_out_of_range_raises (f : field) (env_vars : gmap string string)
    (a raw : string) (n : N) :
  f = persist_state_interval ∨ f = system_info_interval →
  get_field_value Configuration f env_vars = Some (a, raw) →
  Text.digits raw = Some n → (String.length raw ≤ 4300)%nat →
  microseconds timedelta_max < Z.of_N n * 1000 →
  BaseSettings_init Configuration ∅ env_vars = inl OverflowError.
Proof.
  intros Hf Hwin Hraw _ Hn. pose proof (duration_field f Hf) as Hfield.
  assert (validate_field f raw = Raises OverflowError) as Hval.
  { assert (validate_field f raw = timedelta_from_ms raw) as ->.
    { by destruct Hf as [-> | ->]. }
    unfold timedelta_from_ms. rewrite (str_as_int_digits raw n Hraw).
    unfold timedelta_new, timedelta_fits.
    assert ((microseconds (timedelta_of_milliseconds (Z.of_N n))
             <=? microseconds timedelta_max) = false) as ->.
    { apply Z.leb_gt. by cbn [microseconds timedelta_of_milliseconds]. }
    by rewrite andb_false_r. }
  unfold BaseSettings_init.
  set (data := settings_build_values Configuration ∅ env_vars).
  assert (OverflowError ∈ field_raised Configuration data) as Hraised.
  { apply list_elem_of_omap. exists f. split; [done|].
    unfold data. rewrite (env_field_resolved Configuration env_vars f a raw Hfield Hwin).
    unfold validate_entry. by rewrite Hval. }
  unfold model_validate.
  destruct (field_raised Configuration data) as [|e es] eqn:Hlist.
  { by apply elem_of_nil in Hraised. }
  f_equal. apply (field_raised_OverflowError Configuration data).
  rewrite Hlist. by left.
Qed.

(** C7. The fields [persist_state_interval] and [system_info_interval] read
    their raw text as a whole number of milliseconds: a run of at most
    fifteen digits that spells the count [n] (a count far within the range
    of a duration, and held exactly by every number type of the language)
    gives a duration of [n] milliseconds; "5000" is five seconds and "0" is
    the zero duration. *)
Theorem duration_fields_in_milliseconds (f : field)
    (env_vars : gmap string string) (a raw : string) (n : N) :
  f = persist_state_interval ∨ f = system_info_interval →
  get_field_value Configuration f env_vars = Some (a, raw) →
  Text.digits raw = Some n →
  (String.length raw ≤ 15)%nat →
  validate_model_field Configuration f
    (settings_build_values Configuration ∅ env_vars)
  = Valid (Some a) (VTimedelta (timedelta_of_milliseconds (Z.of_N n)))
  ∧ (∀ attrs, BaseSettings_init Configuration ∅ env_vars = inr attrs →
       attrs !! fld_name f
       = Some (VTimedelta (timedelta_of_milliseconds (Z.of_N n))))
  ∧ BaseSettings_init Configuration ∅ {[a := raw]}
    = inr (<[fld_name f := VTimedelta (timedelta_of_milliseconds (Z.of_N n))]>
             Configuration_defaults)
  ∧ attribute (BaseSettings_init Configuration ∅
                 {["crawlee_persist_state_interval_millis" := "5000"]})
      "persist_state_interval" = Some (VTimedelta (timedelta_of_seconds 5))
  ∧ attribute (BaseSettings_init Configuration ∅
                 {["crawlee_persist_state_interval_millis" := "0"]})
      "persist_state_interval" = Some (VTimedelta (Timedelta 0))
  ∧ attribute (BaseSettings_init Configuration ∅
                 {["apify_system_info_interval_millis" := "5000"]})
      "system_info_interval" = Some (VTimedelta (timedelta_of_seconds 5))
  ∧ attribute (BaseSettings_init Configuration ∅
                 {["apify_system_info_interval_millis" := "0"]})
      "system_info_interval" = Some (VTimedelta (Timedelta 0)).
Proof.
  intros Hf Hwin Hraw Hlen.
  pose proof (validate_timedelta_ms f raw n Hf Hraw Hlen) as Hval.
  pose proof (duration_field f Hf) as Hfield.
  split.
  { rewrite (env_field_resolved Configuration env_vars f a raw Hfield Hwin).
    unfold validate_entry. by rewrite Hval. }
  split.
  { intros attrs Hinit.
    destruct (env_field_instance Configuration Configuration_well_keyed env_vars
                f a raw attrs Hfield Hwin Hinit) as (v & Hv & Hattr).
    rewrite Hval in Hv. by simplify_eq. }
  split.
  { apply (env_single_instance Configuration f a raw _
             Configuration_well_keyed Hfield); [|done].
    by eapply winner_env_name. }
  repeat split; vm_compute; reflexivity.
Qed.

Lemma duration_fields_in_milliseconds_witness :
  BaseSettings_init Configuration ∅ {["apify_persist_state_interval_millis" := "5000"]}
  = inr (<["persist_state_interval" := VTimedelta (timedelta_of_milliseconds 5000)]>
           Configuration_defaults).
Proof.
  apply (duration_fields_in_milliseconds persist_state_interval
           {["apify_persist_state_interval_millis" := "5000"]}
           "apify_persist_state_interval_millis" "5000" 5000).
  - left. reflexivity.
  - reflexivity.
  - reflexivity.
  - cbn. lia.
Defined.

(** ** A memory limit that is not a number *)

Lemma memory_mbytes_field : memory_mbytes ∈ model_fields Configuration.
Proof.
  cbn [model_fields Configuration]. unfold Configuration_fields.
  do 14 apply list_elem_of_further. apply list_elem_of_here.
Qed.

Lemma validate_memory_mbytes (raw : string) :
  non_numeric raw → validate_field memory_mbytes raw = Fails "int_parsing".
Proof.
  intros Hraw. unfold validate_field. cbn.
  by rewrite (non_numeric_not_int raw Hraw).
Qed.

(** C8, as it stands, fails: the error raised for a memory limit that is
    not a number is the validation library's [ValidationError]; no error
    of a class named TypeCoercionError is raised. *)
Lemma memory_mbytes_error_is_ValidationError :
  BaseSettings_init Configuration ∅ {["actor_memory_mbytes" := "abc"]}
  = inl (ValidationError "Configuration"
           [LineError "actor_memory_mbytes" "int_parsing" "abc"])
  ∧ ¬ ∃ e, BaseSettings_init Configuration ∅ {["actor_memory_mbytes" := "abc"]}
           = inl e
           ∧ exception_class e = "TypeCoercionError".
Proof.
  assert (BaseSettings_init Configuration ∅ {["actor_memory_mbytes" := "abc"]}
          = inl (ValidationError "Configuration"
                   [LineError "actor_memory_mbytes" "int_parsing" "abc"])) as Heq.
  { vm_compute. reflexivity. }
  split; [exact Heq|]. intros (e & He & Hclass).
  rewrite Heq in He. injection He as <-. discriminate Hclass.
Qed.

(** C8, amended.  When the winning source name of [memory_mbytes] supplies
    text that is not a number (text without a digit, or with an ASCII
    character that no number has), the construction of [Configuration]
    yields no instance.  It raises the library's [ValidationError], which
    reports an error located at that source name together with the text
    supplied; the one other outcome is that the validator of a duration
    field raised its [OverflowError] first. *)
Theorem memory_mbytes_non_numeric (env_vars : gmap string string) (a raw : string) :
  get_field_value Configuration memory_mbytes env_vars = Some (a, raw) →
  non_numeric raw →
  ∃ e,
    BaseSettings_init Configuration ∅ env_vars = inl e
    ∧ (e = OverflowError
       ∨ ∃ errors ty, e = ValidationError "Configuration" errors
                      ∧ LineError a ty raw ∈ errors)
    ∧ ∀ name, attribute (BaseSettings_init Configuration ∅ env_vars) name = None.
Proof.
  intros Hwin Hraw.
  destruct (env_field_fails Configuration env_vars memory_mbytes a raw
              "int_parsing" memory_mbytes_field Hwin
              (validate_memory_mbytes raw Hraw)) as (e & Hinit & He).
  exists e. split; [exact Hinit|]. split.
  - destruct He as [->|(errors & -> & Hline)]; [by left|right].
    by exists errors, "int_parsing".
  - intros name. by rewrite Hinit.
Qed.

Lemma memory_mbytes_non_numeric_witness :
  (∃ e,
    BaseSettings_init Configuration ∅
      {["apify_memory_mbytes" := "lots"; "crawlee_memory_mbytes" := "512";
        "crawlee_log_level" := "debug"]} = inl e
    ∧ (e = OverflowError
       ∨ ∃ errors ty, e = ValidationError "Configuration" errors
                      ∧ LineError "apify_memory_mbytes" ty "lots" ∈ errors)
    ∧ ∀ name, attribute
                (BaseSettings_init Configuration ∅
                   {["apify_memory_mbytes" := "lots";
                     "crawlee_memory_mbytes" := "512";
                     "crawlee_log_level" := "debug"]}) name = None)
  ∧ BaseSettings_init Configuration ∅
      {["apify_memory_mbytes" := "lots"; "crawlee_memory_mbytes" := "512";
        "crawlee_log_level" := "debug"]}
    = inl (ValidationError "Configuration"
             [LineError "apify_memory_mbytes" "int_parsing" "lots"]).
Proof.
  split; [|vm_compute; reflexivity].
  apply (memory_mbytes_non_numeric _ "apify_memory_mbytes" "lots").
  - reflexivity.
  - right. exists "l"%char. split; [|split; reflexivity].
    cbn [Text.chars]. apply list_elem_of_here.
Defined.

(** ** The global accessor *)

Lemma string_app_cons (c : ascii) (s t : string) :
  String c s +:+ t = String c (s +:+ t).
Proof. reflexivity. Qed.

Lemma string_app_nil (t : string) : "" +:+ t = t.
Proof. reflexivity. Qed.

Lemma string_app_assoc (s1 s2 s3 : string) :
  (s1 +:+ s2) +:+ s3 = s1 +:+ s2 +:+ s3.
Proof.
  induction s1 as [|c s1 IH]; [done|]. by rewrite !string_app_cons, IH.
Qed.

Lemma issubclass_refl (cls : pyclass) : issubclass cls cls = true.
Proof. unfold issubclass. by rewrite bool_decide_eq_true_2. Qed.

(** The message names both classes. *)
Lemma mismatch_message_names (cls actual : pyclass) :
  contains (mismatch_message cls actual) (qualified_name cls)
  ∧ contains (mismatch_message cls actual) (qualified_name actual).
Proof.
  unfold contains, mismatch_message, class_repr. split.
  - exists "Requested global configuration object of type <class '",
      ("'>, but <class '" +:+ qualified_name actual +:+ "'> was found").
    by rewrite !string_app_assoc, !string_app_cons, !string_app_nil.
  - exists ("Requested global configuration object of type <class '"
            +:+ qualified_name cls +:+ "'>, but <class '"),
      "'> was found".
    by rewrite !string_app_assoc, !string_app_cons, !string_app_nil.
Qed.

(** With an instance in place, the accessor only checks its class. *)
Lemma get_global_when_set (cls : pyclass) (st : state) (stored : object) :
  services_configuration st = Some stored →
  get_global_configuration cls st
  = if isinstance stored cls then (inr stored, st)
    else (inl (TypeError (mismatch_message cls (obj_class stored))), st).
Proof.
  intros Hset. unfold get_global_configuration, bind,
    service_container.get_configuration, service_container.get_configuration_if_set,
    bind, ret, raise.
  rewrite Hset. cbn. rewrite Hset. by destruct (isinstance stored cls).
Qed.

(** Without one, the accessor constructs an instance of the class it was
    called on, installs it and returns it; nothing changes when the
    construction fails. *)
Lemma get_global_when_unset (cls : pyclass) (st : state) :
  services_configuration st = None →
  get_global_configuration cls st
  = match BaseSettings_init cls ∅ (environ st) with
    | inl e => (inl e, st)
    | inr attrs =>
        let instance := Object (constructed st) cls attrs in
        (inr instance, State (environ st) (S (constructed st)) (Some instance))
    end.
Proof.
  intros Hunset. unfold get_global_configuration, bind,
    service_container.get_configuration, service_container.get_configuration_if_set,
    service_container.set_configuration, new, bind, ret, raise.
  rewrite Hunset.
  destruct (BaseSettings_init cls ∅ (environ st)) as [e|attrs]; [done|].
  cbn. unfold isinstance. cbn. by rewrite issubclass_refl.
Qed.

(** A call that returns leaves the returned instance in place, and it is an
    instance of the class asked for. *)
Lemma get_global_returns (cls : pyclass) (st st1 : state) (o : object) :
  get_global_configuration cls st = (inr o, st1) →
  services_configuration st1 = Some o ∧ isinstance o cls = true
  ∧ (constructed st1 ≤ S (constructed st))%nat.
Proof.
  destruct (services_configuration st) as [stored|] eqn:Hst.
  - rewrite (get_global_when_set cls st stored Hst).
    destruct (isinstance stored cls) eqn:Hinst; intros [= <- <-].
    repeat split; [done..|lia].
  - rewrite (get_global_when_unset cls st Hst).
    destruct (BaseSettings_init cls ∅ (environ st)) as [e|attrs]; [done|].
    cbn. intros [= <- <-]. cbn. split; [done|]. split; [|lia].
    apply issubclass_refl.
Qed.

(** ** A stored instance of another class *)

(** C3, as it stands, fails: with a [Configuration] in place, asking for
    the global [ProjectConfiguration] raises the built-in [TypeError]; no
    error of a class named ConfigurationTypeMismatchError is raised. *)
Lemma type_mismatch_raises_builtin_TypeError :
  let st := State ∅ 1 (Some (Object 0 Configuration Configuration_defaults)) in
  (∃ message,
     get_global_configuration ProjectConfiguration st = (inl (TypeError message), st))
  ∧ ¬ ∃ e st',
        get_global_configuration ProjectConfiguration st = (inl e, st')
        ∧ exception_class e = "ConfigurationTypeMismatchError".
Proof.
  intros st.
  assert (get_global_configuration ProjectConfiguration st
          = (inl (TypeError (mismatch_message ProjectConfiguration Configuration)),
             st)) as Heq.
  { by rewrite (get_global_when_set ProjectConfiguration st
                  (Object 0 Configuration Configuration_defaults)). }
  split; [by eexists|]. intros (e & st' & He & Hclass).
  rewrite Heq in He. injection He as <- _. discriminate Hclass.
Qed.

(** C3, amended.  When the instance in place is not an instance of the
    class the accessor is called on, the call raises a [TypeError] whose
    message names the class asked for and the class of the stored instance;
    nothing is returned and the stored instance stays in place. *)
Theorem type_mismatch_raises_TypeError (cls : pyclass) (st : state) (stored : object) :
  services_configuration st = Some stored →
  isinstance stored cls = false →
  get_global_configuration cls st
  = (inl (TypeError (mismatch_message cls (obj_class stored))), st)
  ∧ contains (mismatch_message cls (obj_class stored)) (qualified_name cls)
  ∧ contains (mismatch_message cls (obj_class stored))
      (qualified_name (obj_class stored)).
Proof.
  intros Hset Hinst. split.
  - by rewrite (get_global_when_set cls st stored Hset), Hinst.
  - apply mismatch_message_names.
Qed.

Lemma type_mismatch_raises_TypeError_witness :
  let stored := Object 0 Configuration Configuration_defaults in
  let st := State ∅ 1 (Some stored) in
  get_global_configuration ProjectConfiguration st
  = (inl (TypeError (mismatch_message ProjectConfiguration Configuration)), st)
  ∧ mismatch_message ProjectConfiguration Configuration
    = "Requested global configuration object of type <class 'project.settings.ProjectConfiguration'>, but <class 'crawlee.configuration.Configuration'> was found".
Proof.
  intros stored st. split; [|reflexivity].
  apply (type_mismatch_raises_TypeError ProjectConfiguration st stored).
  - reflexivity.
  - reflexivity.
Defined.

(** ** One instance for the process *)

Lemma calls_cons (cls : pyclass) (clss : list pyclass) (st : state) :
  calls (cls :: clss) st
  = ((get_global_configuration cls st).1
       :: (calls clss (get_global_configuration cls st).2).1,
     (calls clss (get_global_configuration cls st).2).2).
Proof.
  cbn [calls]. destruct (get_global_configuration cls st) as [r st'].
  cbn [fst snd]. by destruct (calls clss st').
Qed.

(** With an instance in place, calls change nothing: each returns that
    instance or raises the type error. *)
Lemma calls_when_set (clss : list pyclass) (st : state) (o : object) :
  services_configuration st = Some o →
  (calls clss st).2 = st
  ∧ Forall (λ r, r = inr o ∨ ∃ message, r = inl (TypeError message))
      (calls clss st).1.
Proof.
  intros Hset. induction clss as [|cls clss [IHst IHrs]]; [by split|].
  rewrite calls_cons, (get_global_when_set cls st o Hset).
  destruct (isinstance o cls); cbn [fst snd]; (split; [done|]);
    constructor; eauto.
Qed.

(** However many calls a process makes, and on whatever classes, at most
    one instance is constructed. *)
Lemma calls_construct_once (clss : list pyclass) (st : state) :
  services_configuration st = None →
  (constructed (calls clss st).2 ≤ S (constructed st))%nat.
Proof.
  intros Hunset. induction clss as [|cls clss IH]; [cbn; lia|].
  rewrite calls_cons, (get_global_when_unset cls st Hunset).
  destruct (BaseSettings_init cls ∅ (environ st)) as [e|attrs].
  - done.
  - cbn [fst snd].
    by rewrite (proj1 (calls_when_set clss
                         (State (environ st) (S (constructed st))
                            (Some (Object (constructed st) cls attrs)))
                         (Object (constructed st) cls attrs) eq_refl)).
Qed.

(** C4. When a call of the accessor has returned an instance, the next
    call returns the identical instance and constructs nothing, even if the
    environment has changed in between; any later calls, on whatever
    classes, return that same instance or raise the type error and leave
    the state as it is; and a process constructs at most one instance,
    however many calls it makes. *)
Theorem sequential_calls_return_identical_instance
    (cls : pyclass) (st st1 : state) (o : object) :
  get_global_configuration cls st = (inr o, st1) →
  get_global_configuration cls st1 = (inr o, st1)
  ∧ (∀ env_vars,
       let st2 := State env_vars (constructed st1) (services_configuration st1) in
       get_global_configuration cls st2 = (inr o, st2))
  ∧ (∀ clss,
       (calls clss st1).2 = st1
       ∧ Forall (λ r, r = inr o ∨ ∃ message, r = inl (TypeError message))
           (calls clss st1).1)
  ∧ (∀ env_vars clss,
       (constructed (calls clss (initial_state env_vars)).2 ≤ 1)%nat).
Proof.
  intros (Hset & Hinst & Hcount)%get_global_returns.
  split; [by rewrite (get_global_when_set cls st1 o Hset), Hinst|].
  split.
  { intros env_vars st2.
    by rewrite (get_global_when_set cls st2 o Hset), Hinst. }
  split.
  { intros clss. by apply calls_when_set. }
  intros env_vars clss.
  exact (calls_construct_once clss (initial_state env_vars) eq_refl).
Qed.

Lemma sequential_calls_return_identical_instance_witness :
  let o := Object 0 Configuration Configuration_defaults in
  let st1 := State ∅ 1 (Some o) in
  get_global_configuration Configuration (initial_state ∅) = (inr o, st1)
  ∧ get_global_configuration Configuration st1 = (inr o, st1).
Proof.
  intros o st1.
  assert (get_global_configuration Configuration (initial_state ∅) = (inr o, st1))
    as Hfirst.
  { rewrite get_global_when_unset by reflexivity.
    cbn [environ initial_state]. rewrite Configuration_init_empty. reflexivity. }
  split; [exact Hfirst|].
  apply (sequential_calls_return_identical_instance Configuration
           (initial_state ∅) st1 o Hfirst).
Defined.

(** ** Instances of subclasses *)

Lemma strict_subclass_isinstance (o : object) (cls : pyclass) :
  strict_subclass (obj_class o) cls → isinstance o cls = true.
Proof.
  intros [Hbase _]. unfold isinstance, issubclass.
  rewrite (bool_decide_eq_true_2 _ Hbase). apply orb_true_r.
Qed.

(** C10. The check is an instance check: when the class of the stored
    instance is a proper subclass of the class the accessor is called on
    (so the two classes differ), the call returns the stored instance and
    raises nothing. *)
Theorem subclass_instance_is_returned (cls : pyclass) (st : state) (stored : object) :
  services_configuration st = Some stored →
  strict_subclass (obj_class stored) cls →
  get_global_configuration cls st = (inr stored, st)
  ∧ qualified_name (obj_class stored) ≠ qualified_name cls.
Proof.
  intros Hset Hsub. split; [|by destruct Hsub].
  by rewrite (get_global_when_set cls st stored Hset),
    (strict_subclass_isinstance stored cls Hsub).
Qed.

Lemma subclass_instance_is_returned_witness :
  let stored := Object 0 ProjectConfiguration Configuration_defaults in
  let st := State ∅ 1 (Some stored) in
  get_global_configuration Configuration st = (inr stored, st)
  ∧ qualified_name ProjectConfiguration ≠ qualified_name Configuration.
Proof.
  intros stored st.
  apply (subclass_instance_is_returned Configuration st stored).
  - reflexivity.
  - split.
    + apply list_elem_of_here.
    + discriminate.
Defined.

(** ** Callers that interleave, and callers that wait for the first *)

(** The steps of one thread, run without interruption. *)
Lemma schedule_step_at (st : state) (ts : list thread) (i : nat) (t : thread) :
  ts !! i = Some t →
  schedule_step (st, ts) i
  = ((thread_step t st).2, <[i := (thread_step t st).1]> ts).
Proof.
  intros Hi. unfold schedule_step. cbn [fst snd]. rewrite Hi.
  by destruct (thread_step t st).
Qed.

Lemma run_alone (k i : nat) (st : state) (ts : list thread) (t : thread) :
  ts !! i = Some t →
  run (replicate k i) (st, ts)
  = let r := Nat.iter k (λ r, thread_step r.1 r.2) (t, st) in
    (r.2, <[i := r.1]> ts).
Proof.
  intros Hi. revert st ts t Hi. induction k as [|k IH]; intros st ts t Hi.
  - cbn. by rewrite list_insert_id.
  - cbn [replicate]. unfold run in *. cbn [foldl].
    rewrite (schedule_step_at st ts i t Hi).
    rewrite (IH _ _ (thread_step t st).1).
    + rewrite list_insert_insert_eq. rewrite Nat.iter_succ_r. cbn [fst snd].
      by destruct (thread_step t st).
    + apply list_lookup_insert_eq. by eapply lookup_lt_Some.
Qed.

Lemma step_check (cls : pyclass) (st : state) :
  thread_step (Thread cls at_check) st
  = (Thread cls (match services_configuration st with
                 | None => at_construct
                 | Some _ => at_get
                 end), st).
Proof. reflexivity. Qed.

Lemma step_construct (cls : pyclass) (st : state) :
  thread_step (Thread cls at_construct) st
  = match BaseSettings_init cls ∅ (environ st) with
    | inl e => (Thread cls (finished (inl e)), st)
    | inr attrs =>
        (Thread cls (at_set (Object (constructed st) cls attrs)),
         State (environ st) (S (constructed st)) (services_configuration st))
    end.
Proof.
  unfold thread_step. cbn [thr_cls thr_pc pc_step]. unfold advance, new.
  by destruct (BaseSettings_init cls ∅ (environ st)).
Qed.

Lemma step_set (cls : pyclass) (st : state) (o : object) :
  thread_step (Thread cls (at_set o)) st
  = (Thread cls at_get, State (environ st) (constructed st) (Some o)).
Proof. reflexivity. Qed.

Lemma step_get (cls : pyclass) (st : state) (o : object) :
  services_configuration st = Some o →
  thread_step (Thread cls at_get) st = (Thread cls (at_isinstance o), st).
Proof.
  intros Hset. unfold thread_step. cbn [thr_cls thr_pc pc_step].
  unfold advance, service_container.get_configuration,
    service_container.get_configuration_if_set, bind, ret.
  by rewrite Hset.
Qed.

Lemma step_isinstance (cls : pyclass) (st : state) (o : object) :
  thread_step (Thread cls (at_isinstance o)) st
  = (Thread cls (finished (if isinstance o cls then inr o
                           else inl (TypeError (mismatch_message cls (obj_class o))))),
     st).
Proof.
  unfold thread_step. cbn [thr_cls thr_pc pc_step]. unfold advance.
  by destruct (isinstance o cls).
Qed.

Lemma step_finished (cls : pyclass) (st : state) r :
  thread_step (Thread cls (finished r)) st = (Thread cls (finished r), st).
Proof. reflexivity. Qed.

(** A call that is not interrupted does what the accessor does. *)
Lemma call_alone (cls : pyclass) (st : state) :
  Nat.iter call_steps (λ r, thread_step r.1 r.2) (Thread cls at_check, st)
  = (Thread cls (finished (get_global_configuration cls st).1),
     (get_global_configuration cls st).2).
Proof.
  unfold call_steps. rewrite !Nat.iter_succ. cbn [Nat.iter nat_rect fst snd].
  rewrite step_check. cbn [fst snd].
  destruct (services_configuration st) as [stored|] eqn:Hst.
  - rewrite (get_global_when_set cls st stored Hst).
    rewrite (step_get cls st stored Hst). cbn [fst snd].
    rewrite step_isinstance. cbn [fst snd].
    rewrite !step_finished. cbn [fst snd].
    by destruct (isinstance stored cls).
  - rewrite (get_global_when_unset cls st Hst).
    rewrite step_construct.
    destruct (BaseSettings_init cls ∅ (environ st)) as [e|attrs].
    + cbn [fst snd]. by rewrite !step_finished.
    + cbn [fst snd]. rewrite step_set. cbn [fst snd].
      rewrite (step_get cls _ (Object (constructed st) cls attrs)) by done.
      cbn [fst snd]. rewrite step_isinstance. cbn [fst snd].
      unfold isinstance. cbn [obj_class]. by rewrite issubclass_refl.
Qed.

Lemma run_call (cls : pyclass) (i : nat) (st : state) (ts : list thread) :
  ts !! i = Some (Thread cls at_check) →
  run (replicate call_steps i) (st, ts)
  = ((get_global_configuration cls st).2,
     <[i := Thread cls (finished (get_global_configuration cls st).1)]> ts).
Proof.
  intros Hi. rewrite (run_alone _ _ _ _ _ Hi). by rewrite call_alone.
Qed.

Lemma run_app (s1 s2 : list nat) (sys : system) :
  run (s1 ++ s2) sys = run s2 (run s1 sys).
Proof. apply foldl_app. Qed.

(** Every step takes a call further, until it has finished. *)
Lemma thread_step_progress (t : thread) (st : state) :
  (progress (thr_pc t) `min` 4 < progress (thr_pc (thread_step t st).1))%nat.
Proof.
  destruct t as [cls p]. unfold thread_step. cbn [thr_cls thr_pc].
  destruct p as [| |instance| |global_instance|r]; cbn [pc_step progress].
  - unfold advance, service_container.get_configuration_if_set.
    destruct (services_configuration st); cbn; lia.
  - unfold advance. destruct (new cls st) as [[e|o] st']; cbn; lia.
  - cbn. lia.
  - unfold advance.
    destruct (service_container.get_configuration st) as [[e|o] st']; cbn; lia.
  - unfold advance, raise, ret.
    destruct (negb (isinstance global_instance cls)); cbn; lia.
  - cbn. lia.
Qed.

Lemma turns_cons (i : nat) (schedule : list nat) (j : nat) :
  turns (i :: schedule) j
  = ((if decide (i = j) then 1 else 0) + turns schedule j)%nat.
Proof.
  unfold turns. destruct (decide (i = j)) as [->|Hne].
  - by rewrite filter_cons_True.
  - by rewrite filter_cons_False.
Qed.

(** A thread has got at least as far as the number of its turns. *)
Lemma run_progress (schedule : list nat) (sys : system) (j : nat) (t : thread) :
  sys.2 !! j = Some t →
  ∃ t', (run schedule sys).2 !! j = Some t'
        ∧ ((progress (thr_pc t) + turns schedule j) `min` 5
           ≤ progress (thr_pc t'))%nat.
Proof.
  unfold run. revert sys t.
  induction schedule as [|i schedule IH]; intros [st ts] t Hj; cbn [snd] in Hj.
  - exists t. split; [done|]. unfold turns. cbn. lia.
  - cbn [foldl]. rewrite turns_cons.
    destruct (ts !! i) as [ti|] eqn:Hi.
    + rewrite (schedule_step_at st ts i ti Hi).
      destruct (decide (i = j)) as [->|Hne].
      * assert (ti = t) as -> by congruence.
        destruct (IH ((thread_step t st).2, <[j := (thread_step t st).1]> ts)
                    (thread_step t st).1) as (t' & Ht' & Hprogress).
        { cbn [snd]. apply list_lookup_insert_eq. by eapply lookup_lt_Some. }
        exists t'. split; [done|].
        pose proof (thread_step_progress t st). lia.
      * destruct (IH ((thread_step ti st).2, <[i := (thread_step ti st).1]> ts) t)
          as (t' & Ht' & Hprogress).
        { cbn [snd]. by rewrite list_lookup_insert_ne. }
        exists t'. split; [done|]. lia.
    + assert (schedule_step (st, ts) i = (st, ts)) as ->.
      { unfold schedule_step. cbn [fst snd]. by rewrite Hi. }
      destruct (decide (i = j)) as [->|Hne]; [congruence|].
      destruct (IH (st, ts) t Hj) as (t' & Ht' & Hprogress).
      exists t'. split; [done|]. lia.
Qed.

Lemma run_length (schedule : list nat) (sys : system) :
  length (run schedule sys).2 = length sys.2.
Proof.
  unfold run. revert sys. induction schedule as [|i schedule IH]; intros [st ts];
    [done|].
  cbn [foldl]. rewrite IH. unfold schedule_step. cbn [fst snd].
  destruct (ts !! i) as [t|]; [|done].
  destruct (thread_step t st). cbn [snd]. by rewrite length_insert.
Qed.

(** With [o] in place, a thread that has not constructed an instance of
    its own goes on to return [o], and changes nothing. *)
Lemma settled_step (o : object) (st : state) (t : thread) :
  services_configuration st = Some o → isinstance o (thr_cls t) = true →
  settled o (thr_pc t) →
  (thread_step t st).2 = st ∧ thr_cls (thread_step t st).1 = thr_cls t
  ∧ settled o (thr_pc (thread_step t st).1).
Proof.
  destruct t as [cls p]. cbn [thr_cls thr_pc]. intros Hset Hinst Hp.
  unfold settled in *. destruct Hp as [->|[->|[->| ->]]].
  - rewrite step_check, Hset. cbn. repeat split. by right; left.
  - rewrite (step_get cls st o Hset). cbn. repeat split. by right; right; left.
  - rewrite step_isinstance, Hinst. cbn. repeat split. by right; right; right.
  - rewrite step_finished. cbn. repeat split. by right; right; right.
Qed.

Lemma run_settled (o : object) (cls : pyclass) (schedule : list nat)
    (st : state) (ts : list thread) :
  services_configuration st = Some o → isinstance o cls = true →
  Forall (λ t, thr_cls t = cls ∧ settled o (thr_pc t)) ts →
  (run schedule (st, ts)).1 = st
  ∧ Forall (λ t, thr_cls t = cls ∧ settled o (thr_pc t)) (run schedule (st, ts)).2.
Proof.
  intros Hset Hinst. unfold run. revert ts.
  induction schedule as [|i schedule IH]; intros ts Hts; [done|].
  cbn [foldl]. destruct (ts !! i) as [t|] eqn:Hi.
  - rewrite (schedule_step_at st ts i t Hi).
    pose proof (Forall_lookup_1 _ _ _ _ Hts Hi) as [Hcls Hpc].
    destruct (settled_step o st t Hset) as (-> & Hcls' & Hpc');
      [by rewrite Hcls|done|].
    apply IH. apply Forall_insert; [done|]. split; [congruence|done].
  - assert (schedule_step (st, ts) i = (st, ts)) as ->; [|by apply IH].
    unfold schedule_step. cbn [fst snd]. by rewrite Hi.
Qed.

(** The first three steps of a call on an empty slot: the check, the
    construction and the installation. *)
Lemma run_first_caller (cls : pyclass) (env_vars : gmap string string)
    (attrs : gmap string value) (i : nat) (ts : list thread) :
  ts !! i = Some (Thread cls at_check) →
  BaseSettings_init cls ∅ env_vars = inr attrs →
  run (replicate 3 i) (initial_state env_vars, ts)
  = (State env_vars 1 (Some (Object 0 cls attrs)), <[i := Thread cls at_get]> ts).
Proof.
  intros Hi Hinit. rewrite (run_alone _ _ _ _ _ Hi).
  cbn [Nat.iter nat_rect fst snd]. rewrite step_check. cbn [fst snd].
  cbn [services_configuration initial_state]. rewrite step_construct.
  cbn [environ initial_state]. rewrite Hinit. cbn [fst snd].
  by rewrite step_set.
Qed.

(** C9, as it stands, fails: nothing keeps a second thread from running
    between the check and the installation.  Two threads call the accessor
    in a fresh process; both find the slot empty before either fills it, so
    each constructs an instance of its own: two instances are constructed,
    and the second caller does not get the instance the first one got. *)
Lemma interleaved_callers_construct_two_instances :
  let sys := run [0; 1; 0; 0; 0; 0; 1; 1; 1; 1]%nat
               (initial_state ∅, callers 2 Configuration) in
  constructed sys.1 = 2%nat
  ∧ (returned_id <$> sys.2) !! 0%nat = Some (Some 0%nat)
  ∧ (returned_id <$> sys.2) !! 1%nat ≠ Some (Some 0%nat).
Proof. repeat split; vm_compute; [reflexivity..|discriminate]. Qed.

(** C9, amended.  When the caller that moves first gets through its check,
    its construction and its installation (lines 215 and 216) before any
    other caller moves, and the environment is valid for the class, then
    however the calls interleave afterwards exactly one instance is
    constructed, it stays in place, and every caller that returns gets it;
    when the schedule lets every caller finish, all of them have returned
    it. *)
Theorem first_caller_settles_the_instance (n i : nat) (cls : pyclass)
    (env_vars : gmap string string) (attrs : gmap string value)
    (rest : list nat) :
  (i < n)%nat →
  BaseSettings_init cls ∅ env_vars = inr attrs →
  let o := Object 0 cls attrs in
  let sys := run (replicate 3 i ++ rest) (initial_state env_vars, callers n cls) in
  sys.1 = State env_vars 1 (Some o)
  ∧ Forall (λ t, ∀ r, thr_pc t = finished r → r = inr o) sys.2
  ∧ ((∀ j, (j < n)%nat → (call_steps ≤ turns (replicate 3 i ++ rest) j)%nat) →
     sys.2 = replicate n (Thread cls (finished (inr o)))).
Proof.
  intros Hi Hinit o sys.
  assert (callers n cls !! i = Some (Thread cls at_check)) as Hcaller.
  { by apply lookup_replicate_2. }
  assert (isinstance o cls = true) as Hinst by apply issubclass_refl.
  destruct (run_settled o cls rest (State env_vars 1 (Some o))
              (<[i := Thread cls at_get]> (callers n cls)) eq_refl Hinst)
    as [Hstate Hthreads].
  { apply Forall_insert.
    - apply Forall_forall. intros t [-> _]%elem_of_replicate.
      split; [done|]. by left.
    - split; [done|]. right. by left. }
  assert (sys = run rest (State env_vars 1 (Some o),
                          <[i := Thread cls at_get]> (callers n cls))) as Hsys.
  { unfold sys. by rewrite run_app, (run_first_caller cls env_vars attrs i). }
  rewrite Hsys. split; [exact Hstate|]. split.
  - eapply Forall_impl; [exact Hthreads|]. intros t [_ Hpc] r Hr.
    unfold settled in Hpc. rewrite Hr in Hpc.
    by destruct Hpc as [?|[?|[?|?]]]; simplify_eq.
  - intros Hfair. symmetry. apply replicate_as_Forall. split.
    + rewrite run_length. cbn [snd]. unfold callers.
      by rewrite length_insert, length_replicate.
    + apply Forall_lookup. intros j t Hj.
      assert (j < n)%nat as Hjn.
      { apply lookup_lt_Some in Hj.
        rewrite run_length in Hj. cbn [snd] in Hj. unfold callers in Hj.
        by rewrite length_insert, length_replicate in Hj. }
      destruct (run_progress (replicate 3 i ++ rest)
                  (initial_state env_vars, callers n cls) j (Thread cls at_check))
        as (t' & Ht' & Hprogress).
      { by apply lookup_replicate_2. }
      fold sys in Ht'. rewrite Hsys in Ht'.
      assert (t' = t) as -> by congruence.
      pose proof (Forall_lookup_1 _ _ _ _ Hthreads Hj) as [Hcls Hpc].
      specialize (Hfair j Hjn). unfold call_steps in Hfair.
      cbn [thr_pc progress] in Hprogress.
      destruct t as [cls' p]. cbn [thr_cls thr_pc] in *. subst cls'.
      unfold settled in Hpc.
      destruct Hpc as [->|[->|[->| ->]]]; cbn [progress] in Hprogress;
        [lia..|done].
Qed.

Lemma first_caller_settles_the_instance_witness :
  let o := Object 0 Configuration Configuration_defaults in
  let sys := run [1; 1; 1; 0; 2; 0; 1; 2; 2; 0; 1; 0; 2; 0; 2; 1]%nat
               (initial_state ∅, callers 3 Configuration) in
  sys.1 = State ∅ 1 (Some o)
  ∧ sys.2 = replicate 3 (Thread Configuration (finished (inr o))).
Proof.
  intros o sys.
  destruct (first_caller_settles_the_instance 3 1 Configuration ∅
              Configuration_defaults [0; 2; 0; 1; 2; 2; 0; 1; 0; 2; 0; 2; 1]%nat)
    as (Hstate & _ & Hall).
  - lia.
  - exact Configuration_init_empty.
  - split; [exact Hstate|]. apply Hall. intros j Hj.
    destruct j as [|[|[|j]]]; [vm_compute; lia..|lia].
Defined.

(** * Further properties *)

(** ** A log level that is none of the levels *)

(** X2. When the text supplied for the log level is, in upper case, none of
    the five levels, the construction fails; the validation error reports
    the failure at the name that supplied the text and shows the text in
    upper case.  (The text is taken to be well-formed, as all text is that
    the language could decode; the one other outcome is that the validator
    of a duration field raised its [OverflowError] first.) *)
Theorem unknown_log_level_is_rejected (env_vars : gmap string string)
    (a raw : string) :
  get_field_value Configuration log_level env_vars = Some (a, raw) →
  Text.well_formed raw = true →
  Text.upper raw ∉ log_levels →
  ∃ e,
    BaseSettings_init Configuration ∅ env_vars = inl e
    ∧ (e = OverflowError
       ∨ ∃ errors, e = ValidationError "Configuration" errors
                   ∧ LineError a "literal_error" (Text.upper raw) ∈ errors).
Proof.
  intros Hwin _ Hnot.
  apply (env_field_fails Configuration env_vars log_level a raw "literal_error"
           log_level_field Hwin).
  rewrite validate_log_level. by rewrite bool_decide_eq_false_2.
Qed.

Lemma unknown_log_level_is_rejected_witness :
  (∃ e,
    BaseSettings_init Configuration ∅ {["crawlee_log_level" := "verbose"]} = inl e
    ∧ (e = OverflowError
       ∨ ∃ errors, e = ValidationError "Configuration" errors
                   ∧ LineError "crawlee_log_level" "literal_error" "VERBOSE"
                       ∈ errors))
  ∧ BaseSettings_init Configuration ∅ {["crawlee_log_level" := "verbose"]}
    = inl (ValidationError "Configuration"
             [LineError "crawlee_log_level" "literal_error" "VERBOSE"]).
Proof.
  split; [|vm_compute; reflexivity].
  apply (unknown_log_level_is_rejected {["crawlee_log_level" := "verbose"]}
           "crawlee_log_level" "verbose").
  - reflexivity.
  - vm_compute. reflexivity.
  - apply (bool_decide_unpack _). vm_compute. reflexivity.
Defined.

(** ** Variables of no field, and fields one by one *)

(** X3. Variables of the environment that are no key of any field do not
    matter: two environments that agree on the keys of the fields give the
    same result, the same instance or the same error, whatever else they
    define. *)
Theorem other_variables_are_ignored
    (init_kwargs env_vars env_vars' : gmap string string) :
  (∀ k, k ∈ class_keys Configuration → env_vars !! k = env_vars' !! k) →
  BaseSettings_init Configuration init_kwargs env_vars
  = BaseSettings_init Configuration init_kwargs env_vars'.
Proof. exact (init_ext Configuration init_kwargs env_vars env_vars'). Qed.

Lemma other_variables_are_ignored_witness :
  BaseSettings_init Configuration ∅ {["crawlee_headless" := "no"]}
  = BaseSettings_init Configuration ∅
      {["crawlee_headless" := "no"; "path" := "/usr/bin"; "home" := "/root"]}.
Proof.
  apply (other_variables_are_ignored ∅).
  apply Forall_forall. apply (bool_decide_unpack _). vm_compute. reflexivity.
Defined.

(** X4. Fields are resolved one by one: what a field comes to depends only
    on what the environment defines under the field's own keys.  Two
    environments that agree there validate the field alike, and two
    instances built from them hold the same value for it, whatever the
    environments say about the other fields. *)
Theorem field_depends_on_its_own_keys (f : field)
    (env_vars env_vars' : gmap string string) :
  f ∈ Configuration_fields →
  (∀ k, k ∈ fld_aliases f ++ [fld_name f] → env_vars !! k = env_vars' !! k) →
  validate_model_field Configuration f
    (settings_build_values Configuration ∅ env_vars)
  = validate_model_field Configuration f
      (settings_build_values Configuration ∅ env_vars')
  ∧ ∀ attrs attrs',
      BaseSettings_init Configuration ∅ env_vars = inr attrs →
      BaseSettings_init Configuration ∅ env_vars' = inr attrs' →
      attrs !! fld_name f = attrs' !! fld_name f.
Proof.
  exact (field_ext Configuration f env_vars env_vars' Configuration_well_keyed).
Qed.

Lemma field_depends_on_its_own_keys_witness :
  let env_vars : gmap string string :=
    {["crawlee_storage_dir" := "/data"; "crawlee_headless" := "no"]} in
  let env_vars' : gmap string string :=
    {["crawlee_storage_dir" := "/data"; "crawlee_headless" := "maybe";
      "apify_xvfb" := "yes"]} in
  validate_model_field Configuration storage_dir
    (settings_build_values Configuration ∅ env_vars)
  = validate_model_field Configuration storage_dir
      (settings_build_values Configuration ∅ env_vars').
Proof.
  intros env_vars env_vars'.
  apply (field_depends_on_its_own_keys storage_dir env_vars env_vars').
  - unfold Configuration_fields. do 16 apply list_elem_of_further.
    apply list_elem_of_here.
  - apply Forall_forall. apply (bool_decide_unpack _). vm_compute. reflexivity.
Defined.

(** ** The names of the platform come before the names of the project *)

Lemma first_occurrence_unique {A} (x : A) (pre pre' post post' : list A) :
  pre ++ x :: post = pre' ++ x :: post' → x ∉ pre → x ∉ pre' → pre = pre'.
Proof.
  revert pre'. induction pre as [|y pre IH]; intros [|y' pre'] Heq Hx Hx';
    simplify_eq/=.
  - done.
  - destruct Hx'. by left.
  - destruct Hx. by left.
  - f_equal. apply (IH pre'); [done| |].
    + intros ?. apply Hx. by right.
    + intros ?. apply Hx'. by right.
Qed.

(** The keys in front of the winner are not defined. *)
Lemma first_present_before (ks pre post : list string) (m : gmap string string)
    (c v : string) :
  first_present ks m = Some (c, v) → ks = pre ++ c :: post → c ∉ pre →
  Forall (λ k, m !! k = None) pre.
Proof.
  intros (pre0 & post0 & -> & Hpre0 & Hc)%first_present_Some Heq Hnot.
  assert (c ∉ pre0) as Hnot0.
  { intros Hin. eapply Forall_forall in Hpre0; [|exact Hin]. simpl in Hpre0.
    congruence. }
  by rewrite (first_occurrence_unique c pre pre0 post post0 (eq_sym Heq) Hnot Hnot0).
Qed.

Lemma Configuration_names_plain :
  Forall (λ f, project_name (fld_name f) = false) Configuration_fields.
Proof. apply (bool_decide_unpack _). vm_compute. reflexivity. Qed.

Lemma Configuration_project_names_last :
  Forall (λ f, Forall (λ a, project_name a = true → last (fld_aliases f) = Some a)
                 (fld_aliases f)) Configuration_fields.
Proof. apply (bool_decide_unpack _). vm_compute. reflexivity. Qed.

Lemma Configuration_project_names :
  Forall (λ f, ∃ a, last (fld_aliases f) = Some a ∧ project_name a = true)
    Configuration_fields.
Proof. unfold Configuration_fields. repeat constructor; by eexists. Qed.

(** X5. In every field the name of the project, the one that starts with
    [crawlee_], is the last of the source names: it supplies the field only
    when the environment defines none of the field's other source names,
    those of the platform. *)
Theorem project_name_yields_to_platform_names (f : field)
    (env_vars : gmap string string) (c raw : string) :
  f ∈ Configuration_fields →
  get_field_value Configuration f env_vars = Some (c, raw) →
  project_name c = true →
  ∀ a, a ∈ fld_aliases f → a ≠ c → env_vars !! a = None.
Proof.
  intros Hf Hwin Hc a Ha Hne.
  pose proof (winner_env_name _ _ _ _ _ Hwin) as Hin.
  rewrite Configuration_env_names in Hin.
  apply elem_of_app in Hin as [Hin|Hin]; last first.
  { apply list_elem_of_singleton in Hin as ->.
    pose proof Configuration_names_plain as Hplain.
    eapply Forall_forall in Hplain; [|exact Hf]. simpl in Hplain. congruence. }
  pose proof Configuration_project_names_last as Hlast.
  eapply Forall_forall in Hlast; [|exact Hf].
  eapply Forall_forall in Hlast; [|exact Hin].
  apply Hlast, last_Some in Hc as [pre Hpre].
  pose proof (field_keys_NoDup Configuration f Configuration_well_keyed Hf) as Hnd.
  unfold field_keys in Hnd. rewrite Hpre, <-app_assoc in Hnd.
  apply NoDup_app in Hnd as (_ & Hdisj & _).
  assert (Forall (λ k, env_vars !! k = None) pre) as Hnone.
  { apply (first_present_before (env_names Configuration f) pre [fld_name f]
             env_vars c raw Hwin).
    - by rewrite Configuration_env_names, Hpre, <-app_assoc.
    - intros Hcpre. apply (Hdisj c Hcpre). by left. }
  rewrite Hpre in Ha. apply elem_of_app in Ha as [Ha|Ha].
  - by eapply Forall_forall in Hnone.
  - by apply list_elem_of_singleton in Ha.
Qed.

Lemma project_name_yields_to_platform_names_witness :
  ({["crawlee_default_dataset_id" := "mine"; "path" := "/bin"]}
     : gmap string string) !! "apify_default_dataset_id" = None.
Proof.
  apply (project_name_yields_to_platform_names default_dataset_id
           {["crawlee_default_dataset_id" := "mine"; "path" := "/bin"]}
           "crawlee_default_dataset_id" "mine").
  - unfold Configuration_fields. do 5 apply list_elem_of_further.
    apply list_elem_of_here.
  - reflexivity.
  - reflexivity.
  - apply list_elem_of_further, list_elem_of_here.
  - discriminate.
Defined.

(** X6. Every field has a source name of the project, and that name is
    enough to set the field: whenever the environment defines it and none
    of the field's other source names, it is the name that supplies the
    field. *)
Theorem every_field_has_a_project_name (f : field) :
  f ∈ Configuration_fields →
  ∃ a, a ∈ fld_aliases f ∧ project_name a = true
       ∧ ∀ (env_vars : gmap string string) raw,
           env_vars !! a = Some raw →
           (∀ b, b ∈ fld_aliases f → b ≠ a → env_vars !! b = None) →
           get_field_value Configuration f env_vars = Some (a, raw).
Proof.
  intros Hf. pose proof Configuration_project_names as Hall.
  eapply Forall_forall in Hall as (a & Hlast & Hproj); [|exact Hf].
  apply last_Some in Hlast as [pre Hpre].
  assert (a ∈ fld_aliases f) as Ha.
  { rewrite Hpre. apply elem_of_app. right. by left. }
  exists a. split; [done|]. split; [done|]. intros env_vars raw Hraw Hothers.
  pose proof (field_keys_NoDup Configuration f Configuration_well_keyed Hf) as Hnd.
  unfold field_keys in Hnd. rewrite Hpre, <-app_assoc in Hnd.
  apply NoDup_app in Hnd as (_ & Hdisj & _).
  unfold get_field_value. rewrite Configuration_env_names, Hpre, <-app_assoc.
  apply first_present_Some. exists pre, [fld_name f].
  split; [done|]. split; [|done].
  apply Forall_forall. intros b Hb. apply Hothers.
  - rewrite Hpre. apply elem_of_app. by left.
  - intros ->. apply (Hdisj a Hb). by left.
Qed.

Lemma every_field_has_a_project_name_witness :
  ∃ a, a ∈ fld_aliases memory_mbytes ∧ project_name a = true
       ∧ ∀ (env_vars : gmap string string) raw,
           env_vars !! a = Some raw →
           (∀ b, b ∈ fld_aliases memory_mbytes → b ≠ a → env_vars !! b = None) →
           get_field_value Configuration memory_mbytes env_vars = Some (a, raw).
Proof.
  apply (every_field_has_a_project_name memory_mbytes).
  unfold Configuration_fields. do 14 apply list_elem_of_further.
  apply list_elem_of_here.
Defined.

(** ** Keyword arguments that are no key of a field *)

Lemma used_keys_class_keys (cls : pyclass) (data : gmap string string) (k : string) :
  k ∈ used_keys cls data → k ∈ class_keys cls.
Proof.
  intros (f & Hf & Hkey)%list_elem_of_omap.
  apply (class_keys_field cls f k Hf), (lookup_keys_keys cls).
  unfold validate_model_field, validate_entry in Hkey.
  destruct (first_present (lookup_keys cls f) data) as [[k' raw]|] eqn:Hfp;
    [|done].
  apply first_present_elem in Hfp as [Hin _].
  destruct (validate_field f raw); by simplify_eq/=.
Qed.

Lemma unknown_key_raises (cls : pyclass) (init_kwargs env_vars : gmap string string)
    (k v : string) :
  init_kwargs !! k = Some v → k ∉ class_keys cls →
  ∃ e,
    BaseSettings_init cls init_kwargs env_vars = inl e
    ∧ (e = OverflowError
       ∨ ∃ errors, e = ValidationError (cls_name cls) errors
                   ∧ LineError k "extra_forbidden" v ∈ errors).
Proof.
  intros Hk Hnot. unfold BaseSettings_init.
  set (data := settings_build_values cls init_kwargs env_vars).
  destruct (model_validate_line cls data (LineError k "extra_forbidden" v))
    as (e & Hinit & He).
  { apply elem_of_app. right. unfold extra_errors.
    apply list_elem_of_fmap. exists (k, v). split; [done|].
    apply list_elem_of_filter. split.
    - cbn [fst]. intros Hused. by apply Hnot, (used_keys_class_keys cls data).
    - apply elem_of_map_to_list. by apply lookup_union_Some_l. }
  exists e. split; [done|]. destruct He as [He|He]; [left|by right].
  by eapply field_raised_OverflowError.
Qed.

(** X7. A keyword argument that is neither the name nor an alias of a
    field is refused, whatever the other arguments and the environment:
    the construction fails, and the validation error reports the argument
    as not permitted.  (None of the keyword arguments is an option of the
    constructor, which start with an underscore; the one other outcome is
    that the validator of a duration field raised its [OverflowError]
    first.) *)
Theorem unknown_keyword_is_rejected (init_kwargs env_vars : gmap string string)
    (k v : string) :
  (∀ k', is_Some (init_kwargs !! k') → option_name k' = false) →
  init_kwargs !! k = Some v →
  k ∉ class_keys Configuration →
  ∃ e,
    BaseSettings_init Configuration init_kwargs env_vars = inl e
    ∧ (e = OverflowError
       ∨ ∃ errors, e = ValidationError "Configuration" errors
                   ∧ LineError k "extra_forbidden" v ∈ errors).
Proof.
  intros _. exact (unknown_key_raises Configuration init_kwargs env_vars k v).
Qed.

Lemma unknown_keyword_is_rejected_witness :
  (∃ e,
    BaseSettings_init Configuration
      {["storage_directory" := "/data"; "headless" := "no"]} ∅ = inl e
    ∧ (e = OverflowError
       ∨ ∃ errors, e = ValidationError "Configuration" errors
                   ∧ LineError "storage_directory" "extra_forbidden" "/data"
                       ∈ errors))
  ∧ BaseSettings_init Configuration
      {["storage_directory" := "/data"; "headless" := "no"]} ∅
    = inl (ValidationError "Configuration"
             [LineError "storage_directory" "extra_forbidden" "/data"]).
Proof.
  split; [|vm_compute; reflexivity].
  apply (unknown_keyword_is_rejected _ ∅ "storage_directory" "/data").
  - intros k' [w Hw].
    apply lookup_insert_Some in Hw as [[<- _]|[_ Hw]]; [reflexivity|].
    apply lookup_singleton_Some in Hw as [<- _]. reflexivity.
  - reflexivity.
  - apply (bool_decide_unpack _). vm_compute. reflexivity.
Defined.

(** ** The first access *)

(** X8. On an empty slot the accessor reads the environment once.  When the
    construction raises, the call raises that same error and changes
    nothing: the slot stays empty, so a later call tries again.  Otherwise
    it returns a new instance of exactly the class it was called on,
    holding the settings read, and installs it.  Whatever the call raises
    on an empty slot is what the construction raised: the accessor adds no
    error of its own there. *)
Theorem first_access_constructs_or_fails_cleanly (cls : pyclass) (st : state) :
  services_configuration st = None →
  (∀ e, BaseSettings_init cls ∅ (environ st) = inl e →
        get_global_configuration cls st = (inl e, st))
  ∧ (∀ attrs, BaseSettings_init cls ∅ (environ st) = inr attrs →
        get_global_configuration cls st
        = (inr (Object (constructed st) cls attrs),
           State (environ st) (S (constructed st))
             (Some (Object (constructed st) cls attrs))))
  ∧ (∀ e st', get_global_configuration cls st = (inl e, st') →
        BaseSettings_init cls ∅ (environ st) = inl e ∧ st' = st).
Proof.
  intros Hunset. rewrite (get_global_when_unset cls st Hunset).
  destruct (BaseSettings_init cls ∅ (environ st)) as [e0|attrs0] eqn:Hinit.
  - split; [by intros e [= <-]|]. split; [done|].
    by intros e st' [= <- <-].
  - split; [done|]. split; [by intros attrs [= <-]|]. done.
Qed.

Lemma first_access_constructs_or_fails_cleanly_witness :
  let st := initial_state {["crawlee_headless" := "perhaps"]} in
  get_global_configuration Configuration st
  = (inl (ValidationError "Configuration"
            [LineError "crawlee_headless" "bool_parsing" "perhaps"]), st).
Proof.
  intros st.
  destruct (first_access_constructs_or_fails_cleanly Configuration st eq_refl)
    as [Hfails _].
  apply Hfails. vm_compute. reflexivity.
Defined.

(** ** The first caller decides the class *)

(** X9. The class of the global instance is the class of the first caller,
    for good.  When a class and a proper subclass of it both call the
    accessor, the order matters: if the class calls first, the call of the
    subclass raises the type error; if the subclass calls first, both get
    the one instance of the subclass. *)
Theorem first_caller_decides_the_class (cls sub : pyclass)
    (env_vars : gmap string string) (attrs attrs_sub : gmap string value) :
  strict_subclass sub cls →
  issubclass cls sub = false →
  BaseSettings_init cls ∅ env_vars = inr attrs →
  BaseSettings_init sub ∅ env_vars = inr attrs_sub →
  (calls [cls; sub] (initial_state env_vars)).1
  = [inr (Object 0 cls attrs); inl (TypeError (mismatch_message sub cls))]
  ∧ (calls [sub; cls] (initial_state env_vars)).1
    = [inr (Object 0 sub attrs_sub); inr (Object 0 sub attrs_sub)].
Proof.
  intros Hsub Hnot Hinit Hinit_sub. split.
  - rewrite !calls_cons. cbn [calls fst snd].
    rewrite (get_global_when_unset cls) by done.
    cbn [environ initial_state]. rewrite Hinit. cbn [fst snd constructed].
    rewrite (get_global_when_set sub _ (Object 0 cls attrs)) by done.
    unfold isinstance. cbn [obj_class]. by rewrite Hnot.
  - rewrite !calls_cons. cbn [calls fst snd].
    rewrite (get_global_when_unset sub) by done.
    cbn [environ initial_state]. rewrite Hinit_sub. cbn [fst snd constructed].
    rewrite (get_global_when_set cls _ (Object 0 sub attrs_sub)) by done.
    by rewrite (strict_subclass_isinstance (Object 0 sub attrs_sub) cls Hsub).
Qed.

Lemma first_caller_decides_the_class_witness :
  (calls [Configuration; ProjectConfiguration] (initial_state ∅)).1
  = [inr (Object 0 Configuration Configuration_defaults);
     inl (TypeError (mismatch_message ProjectConfiguration Configuration))]
  ∧ (calls [ProjectConfiguration; Configuration] (initial_state ∅)).1
    = [inr (Object 0 ProjectConfiguration (class_defaults ProjectConfiguration));
       inr (Object 0 ProjectConfiguration (class_defaults ProjectConfiguration))].
Proof.
  apply (first_caller_decides_the_class Configuration ProjectConfiguration ∅).
  - split; [apply list_elem_of_here|discriminate].
  - reflexivity.
  - exact Configuration_init_empty.
  - unfold BaseSettings_init.
    rewrite settings_build_values_env, env_source_empty.
    apply model_validate_empty.
Defined.

(** ** Whatever the interleaving *)

Lemma thread_step_cls (t : thread) (st : state) :
  thr_cls (thread_step t st).1 = thr_cls t.
Proof. unfold thread_step. by destruct (pc_step (thr_cls t) (thr_pc t) st). Qed.

Lemma advance_unfinished {A} (m : M A) (next : A → pc) (st : state)
    (o : object) :
  (∀ a, next a ≠ finished (inr o)) → (advance m next st).1 ≠ finished (inr o).
Proof.
  intros Hnext. unfold advance. destruct (m st) as [[e|a] st']; cbn [fst]; [done|].
  apply Hnext.
Qed.

Lemma thread_step_well_returned (t : thread) (st : state) :
  well_returned t → well_returned (thread_step t st).1.
Proof.
  destruct t as [cls p]. unfold well_returned, thread_step. cbn [thr_cls thr_pc].
  intros Hwell. destruct p as [| |instance| |global_instance|r]; cbn [pc_step].
  - unfold advance, service_container.get_configuration_if_set.
    by destruct (services_configuration st).
  - unfold advance. by destruct (new cls st) as [[e|a] st'].
  - done.
  - unfold advance.
    by destruct (service_container.get_configuration st) as [[e|a] st'].
  - unfold advance, raise, ret.
    by destruct (isinstance global_instance cls) eqn:Hinst.
  - done.
Qed.

Lemma schedule_step_well_returned (clss : list pyclass) (sys : system) (i : nat) :
  Forall2 (λ cls t, thr_cls t = cls ∧ well_returned t) clss sys.2 →
  Forall2 (λ cls t, thr_cls t = cls ∧ well_returned t) clss (schedule_step sys i).2.
Proof.
  intros Hall. destruct sys as [st ts]. cbn [snd] in Hall.
  destruct (ts !! i) as [t|] eqn:Hi.
  - rewrite (schedule_step_at st ts i t Hi). cbn [snd].
    destruct (Forall2_lookup_r _ _ _ _ _ Hall Hi) as (cls & Hcls & <- & Hwell).
    rewrite <-(list_insert_id clss i (thr_cls t)) by done.
    apply Forall2_insert; [done|]. split.
    + apply thread_step_cls.
    + by apply thread_step_well_returned.
  - unfold schedule_step. cbn [fst snd]. by rewrite Hi.
Qed.

(** X10. Whatever the interleaving of the callers, no caller gets an
    instance of a class it did not ask for: in every schedule, from every
    state, a thread that has returned holds an instance of the class it
    called the accessor on (or of a subclass). *)
Theorem no_caller_gets_another_class (schedule : list nat) (st : state)
    (clss : list pyclass) :
  Forall2 (λ cls t, thr_cls t = cls ∧ well_returned t) clss
    (run schedule (st, callers_of clss)).2.
Proof.
  unfold run.
  assert (Forall2 (λ cls t, thr_cls t = cls ∧ well_returned t) clss
            (st, callers_of clss).2) as Hinit.
  { cbn [snd]. unfold callers_of. apply Forall2_fmap_r, Forall_Forall2_diag.
    by apply Forall_forall. }
  revert Hinit. generalize (st, callers_of clss).
  induction schedule as [|i schedule IH]; intros sys Hsys; [done|].
  cbn [foldl]. apply IH. by apply schedule_step_well_returned.
Qed.

Lemma sum_list_insert (f : thread → nat) (ts : list thread) (i : nat)
    (t t' : thread) :
  ts !! i = Some t →
  (sum_list (f <$> <[i := t']> ts) + f t = sum_list (f <$> ts) + f t')%nat.
Proof.
  revert i. induction ts as [|t0 ts IH]; intros [|i] Hi; simplify_eq/=.
  - lia.
  - specialize (IH i Hi). lia.
Qed.

(** One step of a thread constructs at most what the thread could still
    construct, provided the slot is set when the thread is about to read
    it. *)
Lemma thread_step_constructs (t : thread) (st : state) :
  (thr_pc t = at_get → services_configuration st ≠ None) →
  (constructed (thread_step t st).2 + may_construct (thread_step t st).1
   = constructed st + may_construct t)%nat
  ∨ (constructed (thread_step t st).2 + may_construct (thread_step t st).1
     < constructed st + may_construct t)%nat.
Proof.
  destruct t as [cls p]. unfold thread_step, may_construct. cbn [thr_cls thr_pc].
  intros Hget. destruct p as [| |instance| |global_instance|r]; cbn [pc_step].
  - unfold advance, service_container.get_configuration_if_set.
    destruct (services_configuration st); cbn; [right|left]; lia.
  - unfold advance, new.
    destruct (BaseSettings_init cls ∅ (environ st)); cbn; [right|left]; lia.
  - left. cbn. lia.
  - unfold advance, service_container.get_configuration,
      service_container.get_configuration_if_set, bind, ret.
    destruct (services_configuration st) as [o|] eqn:Hst; [|by destruct Hget].
    left. cbn. lia.
  - unfold advance, raise, ret.
    destruct (negb (isinstance global_instance cls)); left; cbn; lia.
  - left. cbn. lia.
Qed.

(** A step never empties the slot, and it fills the slot before the thread
    goes on to read it. *)
Lemma thread_step_slot (t : thread) (st : state) :
  (is_Some (services_configuration st) →
   is_Some (services_configuration (thread_step t st).2))
  ∧ (thr_pc t ≠ at_get → thr_pc (thread_step t st).1 = at_get →
     is_Some (services_configuration (thread_step t st).2)).
Proof.
  destruct t as [cls p]. unfold thread_step. cbn [thr_cls thr_pc].
  destruct p as [| |instance| |global_instance|r]; cbn [pc_step].
  - unfold advance, service_container.get_configuration_if_set.
    destruct (services_configuration st) eqn:Hst; cbn; rewrite ?Hst; split;
      try done; eauto.
  - unfold advance, new.
    destruct (BaseSettings_init cls ∅ (environ st)); cbn; by split.
  - cbn. split; eauto.
  - unfold advance, service_container.get_configuration,
      service_container.get_configuration_if_set, bind, ret, new,
      service_container.set_configuration.
    destruct (services_configuration st) as [o|] eqn:Hst; cbn.
    + rewrite Hst. by split.
    + destruct (BaseSettings_init Configuration ∅ (environ st)); cbn;
        rewrite ?Hst; split; try done; by intros [? ?].
  - unfold advance, raise, ret.
    destruct (negb (isinstance global_instance cls)); cbn; by split.
  - cbn. by split.
Qed.

Lemma schedule_step_readers (sys : system) (i : nat) :
  readers_served sys → readers_served (schedule_step sys i).
Proof.
  destruct sys as [st ts]. unfold readers_served. cbn [fst snd]. intros Hserved.
  destruct (ts !! i) as [t|] eqn:Hi.
  - rewrite (schedule_step_at st ts i t Hi). cbn [fst snd]. intros Hnone.
    destruct (thread_step_slot t st) as [Hkeep Hfill].
    assert (services_configuration st = None) as Hst.
    { destruct (services_configuration st) as [stored|] eqn:Hst; [|done].
      destruct Hkeep as [o' Ho]; [by eexists|]. congruence. }
    specialize (Hserved Hst).
    apply Forall_insert; [done|]. intros Hget.
    destruct Hfill as [o' Ho]; [|done|congruence].
    eapply Forall_lookup in Hserved; [|exact Hi]. done.
  - unfold schedule_step. cbn [fst snd]. by rewrite Hi.
Qed.

Lemma schedule_step_constructs (sys : system) (i : nat) :
  readers_served sys →
  (constructed (schedule_step sys i).1
   + sum_list (may_construct <$> (schedule_step sys i).2)
   ≤ constructed sys.1 + sum_list (may_construct <$> sys.2))%nat.
Proof.
  destruct sys as [st ts]. unfold readers_served. cbn [fst snd]. intros Hserved.
  destruct (ts !! i) as [t|] eqn:Hi.
  - rewrite (schedule_step_at st ts i t Hi). cbn [fst snd].
    pose proof (sum_list_insert may_construct ts i t (thread_step t st).1 Hi).
    assert (thr_pc t = at_get → services_configuration st ≠ None) as Hget.
    { intros Hpc Hnone. specialize (Hserved Hnone).
      eapply Forall_lookup in Hserved; [|exact Hi]. done. }
    destruct (thread_step_constructs t st Hget); lia.
  - unfold schedule_step. cbn [fst snd]. by rewrite Hi.
Qed.

Lemma run_constructs (schedule : list nat) (sys : system) :
  readers_served sys →
  (constructed (run schedule sys).1 + sum_list (may_construct <$> (run schedule sys).2)
   ≤ constructed sys.1 + sum_list (may_construct <$> sys.2))%nat.
Proof.
  unfold run. revert sys. induction schedule as [|i schedule IH]; intros sys Hsys.
  - done.
  - cbn [foldl].
    pose proof (schedule_step_constructs sys i Hsys).
    pose proof (IH (schedule_step sys i) (schedule_step_readers sys i Hsys)).
    lia.
Qed.

Lemma callers_of_may_construct (clss : list pyclass) :
  sum_list (may_construct <$> callers_of clss) = length clss.
Proof.
  unfold callers_of. induction clss as [|cls clss IH]; [done|].
  cbn. by rewrite IH.
Qed.

(** X11. A race costs at most one construction for each caller: whatever
    the interleaving and whatever the state the callers start in, the
    threads that call the accessor construct, all together, no more
    instances than there are threads. *)
Theorem callers_construct_at_most_one_each (schedule : list nat) (st : state)
    (clss : list pyclass) :
  (constructed (run schedule (st, callers_of clss)).1
   ≤ constructed st + length clss)%nat.
Proof.
  pose proof (run_constructs schedule (st, callers_of clss)) as Hrun.
  cbn [fst snd] in Hrun. rewrite callers_of_may_construct in Hrun.
  assert (readers_served (st, callers_of clss)) as Hserved.
  { intros _. cbn [snd]. unfold callers_of. apply Forall_fmap, Forall_forall.
    by intros cls _. }
  specialize (Hrun Hserved). lia.
Qed.

(** ** A keyword argument and the variable of the same name *)

Lemma first_present_insert (ks : list string) (m : gmap string string)
    (k v' : string) :
  is_Some (m !! k) →
  first_present ks (<[k := v']> m)
  = (λ kv, (kv.1, if decide (kv.1 = k) then v' else kv.2)) <$> first_present ks m.
Proof.
  intros [v Hk]. induction ks as [|k0 ks IH]; [done|].
  cbn [first_present]. destruct (decide (k0 = k)) as [->|Hne].
  - rewrite lookup_insert_eq, Hk. cbn. by rewrite decide_True.
  - rewrite lookup_insert_ne by done.
    destruct (m !! k0) as [v0|]; [|done]. cbn. by rewrite decide_False.
Qed.

Lemma init_kwarg_as_variable (cls : pyclass) (env_vars : gmap string string)
    (f : field) (k raw raw' : string) :
  f ∈ model_fields cls →
  get_field_value cls f env_vars = Some (k, raw) →
  BaseSettings_init cls {[k := raw']} env_vars
  = BaseSettings_init cls ∅ (<[k := raw']> env_vars).
Proof.
  intros Hf Hwin. unfold BaseSettings_init. f_equal.
  rewrite settings_build_values_env. unfold settings_build_values.
  pose proof (first_present_elem _ _ _ _ Hwin) as [_ Hk].
  assert (∀ g, get_field_value cls g (<[k := raw']> env_vars)
               = (λ kv, (kv.1, if decide (kv.1 = k) then raw' else kv.2))
                   <$> get_field_value cls g env_vars) as Hins.
  { intros g. apply first_present_insert. by eexists. }
  apply map_eq. intros j. apply option_eq. intros v.
  rewrite env_source_lookup. destruct (decide (j = k)) as [->|Hne].
  - rewrite lookup_union_l', lookup_singleton_eq
      by (rewrite lookup_singleton_eq; by eexists).
    split.
    + intros [= <-]. exists f. split; [done|].
      rewrite Hins, Hwin. cbn. by rewrite decide_True.
    + intros (g & _ & Hg). rewrite Hins in Hg.
      destruct (get_field_value cls g env_vars) as [[k0 v0]|]; simplify_eq/=.
      by rewrite decide_True.
  - rewrite lookup_union_r by by rewrite lookup_singleton_ne.
    rewrite env_source_lookup. split.
    + intros (g & Hg & Hgv). exists g. split; [done|].
      rewrite Hins, Hgv. cbn. by rewrite decide_False.
    + intros (g & Hg & Hgv). exists g. split; [done|]. rewrite Hins in Hgv.
      destruct (get_field_value cls g env_vars) as [[k0 v0]|]; simplify_eq/=.
      by rewrite decide_False.
Qed.

(** X13. A keyword argument overrides the variable of the same name: when
    a name supplies a field from the environment, giving that name as a
    keyword argument as well has the same result as redefining the variable
    to the argument's text. *)
Theorem keyword_overrides_variable_of_same_name (f : field)
    (env_vars : gmap string string) (k raw raw' : string) :
  f ∈ Configuration_fields →
  get_field_value Configuration f env_vars = Some (k, raw) →
  BaseSettings_init Configuration {[k := raw']} env_vars
  = BaseSettings_init Configuration ∅ (<[k := raw']> env_vars).
Proof. exact (init_kwarg_as_variable Configuration env_vars f k raw raw'). Qed.

Lemma keyword_overrides_variable_of_same_name_witness :
  BaseSettings_init Configuration {["crawlee_headless" := "no"]}
    {["crawlee_headless" := "yes"; "apify_xvfb" := "1"]}
  = BaseSettings_init Configuration ∅
      (<["crawlee_headless" := "no"]>
         {["crawlee_headless" := "yes"; "apify_xvfb" := "1"]}).
Proof.
  apply (keyword_overrides_variable_of_same_name headless _
           "crawlee_headless" "yes" "no").
  - unfold Configuration_fields. do 18 apply list_elem_of_further.
    apply list_elem_of_here.
  - reflexivity.
Defined.

